(** * TradeVault live strategy signal engine ([rl/live-signals.js])

    A shallow embedding of the [LiveSignalEngine] class: the candle buffer
    maintained by [_processKline], the signal deduplicator [_isNewSignal],
    the five strategy evaluators with their indicator functions, and
    [unsubscribe].

    Conventions of the embedding.
    - A JavaScript number is a value of [num]: an exact rational, one of the
      two infinities, or NaN.  Arithmetic follows the JavaScript rules for
      the special values (x/0, Infinity - Infinity, comparisons with NaN,
      [Math.min] and [Math.max] with NaN); rounding, overflow and the sign
      of zero are not represented.  The results stated over [num] are those
      that comparisons, lengths and special values decide.  Where a result
      depends on rounding (the crossing of two averages, a divisor that is
      zero) the functions are embedded over the binary64 numbers themselves,
      in module [F64].
    - The objects used as dictionaries ([candles], [activeStrategies],
      [lastSignals], [binanceSockets]) are finite maps keyed by strings,
      which hold the entries of the object itself.  A read under a name
      that every object inherits ([constructor], [__proto__], ...) answers
      the inherited member when the object has no entry of its own: module
      [Plain] has [unsubscribe] with such reads, and the results on
      [subscribe], [unsubscribe] and the handlers that are stated over the
      finite maps alone are stated for [ordinary] symbols.
    - A strategy set is an array of strategy names.
    - [null] is [None]; a [TypeError] raised on a missing dictionary entry
      is the outcome [Threw].
    - [Number.prototype.toFixed] depends on the binary representation of
      the number, so the evaluators take the formatter as a parameter. *)

From Stdlib Require Import ZArith QArith Qabs Qround Lqa.
From Stdlib Require Import Ascii String DecimalString.
From Stdlib Require Import Floats.
From stdpp Require Import gmap strings list fin_maps sorting.

Local Open Scope Z_scope.
Local Open Scope nat_scope.

(* ===================================================================== *)
(** ** JavaScript numbers                                                 *)
(* ===================================================================== *)

Module Num.

Inductive num : Type :=
  | Fin (q : Q)
  | PInf
  | NInf
  | NaN.

Definition Qltb (a b : Q) : bool := negb (Qle_bool b a).

Definition of_nat (n : nat) : num := Fin (inject_Z (Z.of_nat n)).

(** unary minus *)
Definition neg (a : num) : num :=
  match a with
  | Fin x => Fin (- x)
  | PInf => NInf
  | NInf => PInf
  | NaN => NaN
  end.

(** [a + b] *)
Definition add (a b : num) : num :=
  match a, b with
  | NaN, _ | _, NaN => NaN
  | Fin x, Fin y => Fin (x + y)
  | PInf, NInf | NInf, PInf => NaN
  | PInf, _ | _, PInf => PInf
  | NInf, _ | _, NInf => NInf
  end.

(** [a - b] *)
Definition sub (a b : num) : num := add a (neg b).

(** an infinity of the sign of [q] (flipped when [pos] is false); NaN for
    [q = 0] *)
Definition inf_times (pos : bool) (q : Q) : num :=
  match (q ?= 0)%Q with
  | Eq => NaN
  | Gt => if pos then PInf else NInf
  | Lt => if pos then NInf else PInf
  end.

(** [a * b] *)
Definition mul (a b : num) : num :=
  match a, b with
  | NaN, _ | _, NaN => NaN
  | Fin x, Fin y => Fin (x * y)
  | PInf, Fin y => inf_times true y
  | NInf, Fin y => inf_times false y
  | Fin x, PInf => inf_times true x
  | Fin x, NInf => inf_times false x
  | PInf, PInf | NInf, NInf => PInf
  | PInf, NInf | NInf, PInf => NInf
  end.

(** [a / b]; a zero divisor counts as +0 *)
Definition div (a b : num) : num :=
  match a, b with
  | NaN, _ | _, NaN => NaN
  | Fin x, Fin y =>
      if Qeq_bool y 0 then inf_times true x else Fin (x / y)
  | Fin _, PInf | Fin _, NInf => Fin 0
  | PInf, Fin y => if Qltb y 0 then NInf else PInf
  | NInf, Fin y => if Qltb y 0 then PInf else NInf
  | _, _ => NaN
  end.

(** [a < b] *)
Definition ltb (a b : num) : bool :=
  match a, b with
  | Fin x, Fin y => Qltb x y
  | Fin _, PInf | NInf, Fin _ | NInf, PInf => true
  | _, _ => false
  end.

(** [a <= b] *)
Definition leb (a b : num) : bool :=
  match a, b with
  | NaN, _ | _, NaN => false
  | Fin x, Fin y => Qle_bool x y
  | NInf, _ | _, PInf => true
  | _, _ => false
  end.

(** [a === b] on numbers *)
Definition eqb (a b : num) : bool :=
  match a, b with
  | Fin x, Fin y => Qeq_bool x y
  | PInf, PInf | NInf, NInf => true
  | _, _ => false
  end.

(** [Math.abs] *)
Definition abs (a : num) : num :=
  match a with
  | Fin x => Fin (Qabs x)
  | PInf | NInf => PInf
  | NaN => NaN
  end.

(** [Math.min(a, b)] and [Math.max(a, b)] *)
Definition min2 (a b : num) : num :=
  match a, b with
  | NaN, _ | _, NaN => NaN
  | _, _ => if leb a b then a else b
  end.

Definition max2 (a b : num) : num :=
  match a, b with
  | NaN, _ | _, NaN => NaN
  | _, _ => if leb a b then b else a
  end.

(** [Math.max(...l)] and [Math.min(...l)]; the empty spread gives
    [-Infinity] and [Infinity] *)
Definition maxl (l : list num) : num := foldl max2 NInf l.
Definition minl (l : list num) : num := foldl min2 PInf l.

(** truthiness of a number, and [a || b] *)
Definition truthy (a : num) : bool :=
  match a with
  | Fin x => negb (Qeq_bool x 0)
  | PInf | NInf => true
  | NaN => false
  end.

Definition or_else (a b : num) : num := if truthy a then a else b.

(** [l.reduce((a, b) => a + b, 0)] *)
Definition total (l : list num) : num := foldl add (Fin 0) l.

(** [l[i]] used as a number: a missing element is [undefined], which
    arithmetic turns into NaN *)
Definition idx (l : list num) (i : nat) : num := default NaN (l !! i).

(** finite; finite and strictly positive; at least zero (and not NaN) *)
Definition finite (a : num) : Prop := exists q, a = Fin q.
Definition pos (a : num) : Prop := exists q, a = Fin q /\ (0 < q)%Q.
Definition nonneg (a : num) : Prop := leb (Fin 0) a = true.

End Num.

Abbreviation num := Num.num.
Abbreviation Fin := Num.Fin.
Abbreviation PInf := Num.PInf.
Abbreviation NInf := Num.NInf.
Abbreviation NaN := Num.NaN.

Declare Scope num_scope.
Delimit Scope num_scope with J.
Bind Scope num_scope with Num.num.
Infix "+" := Num.add : num_scope.
Infix "-" := Num.sub : num_scope.
Infix "*" := Num.mul : num_scope.
Infix "/" := Num.div : num_scope.
Notation "- a" := (Num.neg a) : num_scope.
Infix "<?" := Num.ltb : num_scope.
Infix "<=?" := Num.leb : num_scope.
Notation "a >? b" := (Num.ltb b a) : num_scope.
Notation "a >=? b" := (Num.leb b a) : num_scope.
Infix "=?" := Num.eqb : num_scope.

(* ===================================================================== *)
(** ** Array helpers                                                      *)
(* ===================================================================== *)

(** The relative index of [Array.prototype.slice]: a negative index counts
    from the end, and the result is clamped to [0 .. len]. *)
Definition rel_index (len : nat) (i : Z) : nat :=
  if (i <? 0)%Z then Z.to_nat (Z.max (Z.of_nat len + i) 0)
  else Nat.min (Z.to_nat i) len.

(** [l.slice(s, e)] and [l.slice(s)] *)
Definition slice {A} (l : list A) (s e : Z) : list A :=
  let k := rel_index (length l) s in
  let f := rel_index (length l) e in
  take (f - k) (drop k l).

Definition slice_from {A} (l : list A) (s : Z) : list A :=
  drop (rel_index (length l) s) l.

(* ===================================================================== *)
(** ** Data model                                                         *)
(* ===================================================================== *)

(** A candle as built by [_fetchInitialCandles] and [_processKline]. *)
Record Candle : Type := mkCandle {
  time : Z;
  open : num;
  high : num;
  low : num;
  close : num;
  volume : num;
  closed : bool
}.

(** The [k] object of a kline message, its price fields already passed
    through [parseFloat]. *)
Record Kline : Type := mkKline {
  k_t : Z;
  k_o : num;
  k_h : num;
  k_l : num;
  k_c : num;
  k_v : num;
  k_x : bool
}.

Inductive Action : Type := BUY | SELL | HOLD.

Definition action_eqb (a b : Action) : bool :=
  match a, b with
  | BUY, BUY | SELL, SELL | HOLD, HOLD => true
  | _, _ => false
  end.

(** The object returned by a strategy: [action], [reason], [strength] and
    the strategy's own string fields ([sma10], [rsi], [level], [vwap]). *)
Record Signal : Type := mkSignal {
  action : Action;
  reason : string;
  strength : num;
  extra : list (string * string)
}.

(* ===================================================================== *)
(** ** Indicators                                                         *)
(* ===================================================================== *)

(** [l[i].close] inside the loops, where [i] is always in range *)
Definition closeAt (l : list Candle) (i : nat) : num :=
  match l !! i with
  | Some c => close c
  | None => NaN
  end.

(** [_sma(values, period)], for a period of at least 1 (the engine uses
    10 and 30) *)
Definition _sma (values : list num) (period : nat) : list num :=
  if length values <? period then []
  else
    map (fun i =>
           (Num.total (slice values (Z.of_nat i - Z.of_nat period + 1)
                                    (Z.of_nat i + 1))
            / Num.of_nat period)%J)
        (seq (period - 1) (length values - (period - 1))).

(** [_rsi(values, period)] *)
Definition _rsi (values : list num) (period : nat) : option num :=
  if length values <? period + 1 then None
  else
    let p := Num.of_nat period in
    let '(gains, losses) :=
      foldl (fun '(g, l) i =>
               let diff := (Num.idx values i - Num.idx values (i - 1))%J in
               if (diff >=? Fin 0)%J then ((g + diff)%J, l)
               else (g, (l - diff)%J))
            (Fin 0, Fin 0) (seq 1 period) in
    let avgGain0 := (gains / p)%J in
    let avgLoss0 := (losses / p)%J in
    let '(avgGain, avgLoss) :=
      foldl (fun '(ag, al) i =>
               let diff := (Num.idx values i - Num.idx values (i - 1))%J in
               (((ag * (p - Fin 1)
                  + (if (diff >=? Fin 0)%J then diff else Fin 0)) / p)%J,
                ((al * (p - Fin 1)
                  + (if (diff <? Fin 0)%J then (- diff)%J else Fin 0)) / p)%J))
            (avgGain0, avgLoss0)
            (seq (period + 1) (length values - (period + 1))) in
    if (avgLoss =? Fin 0)%J then Some (Fin 100)
    else
      let rs := (avgGain / avgLoss)%J in
      Some (Fin 100 - Fin 100 / (Fin 1 + rs))%J.

(** the body of the loop of [_vwap], on the pair [(cumPV, cumVol)] *)
Definition vwapStep (acc : num * num) (c : Candle) : num * num :=
  let '(cumPV, cumVol) := acc in
  let typicalPrice := ((high c + low c + close c) / Fin 3)%J in
  ((cumPV + typicalPrice * volume c)%J, (cumVol + volume c)%J).

(** [_vwap(candles)] *)
Definition _vwap (candles : list Candle) : num :=
  let '(cumPV, cumVol) := foldl vwapStep (Fin 0, Fin 0) candles in
  if (cumVol >? Fin 0)%J then (cumPV / cumVol)%J
  else closeAt candles (length candles - 1).

(** the four running sums of [_linearRegSlope] *)
Definition regSums (values : list num) : num * num * num * num :=
  foldl (fun '(sumX, sumY, sumXY, sumX2) i =>
           let x := Num.of_nat i in
           ((sumX + x)%J,
            (sumY + Num.idx values i)%J,
            (sumXY + x * Num.idx values i)%J,
            (sumX2 + x * x)%J))
        (Fin 0, Fin 0, Fin 0, Fin 0) (seq 0 (length values)).

(** [_linearRegSlope(values)] *)
Definition _linearRegSlope (values : list num) : num :=
  let n := Num.of_nat (length values) in
  let '(sumX, sumY, sumXY, sumX2) := regSums values in
  ((n * sumXY - sumX * sumY) / (n * sumX2 - sumX * sumX))%J.

(** [_rSquared(values)] *)
Definition _rSquared (values : list num) : num :=
  let n := Num.of_nat (length values) in
  let slope := _linearRegSlope values in
  let meanY := (Num.total values / n)%J in
  let intercept := (meanY - slope * (n - Fin 1) / Fin 2)%J in
  let '(ssRes, ssTot) :=
    foldl (fun '(res, tot) i =>
             let predicted := (intercept + slope * Num.of_nat i)%J in
             let dr := (Num.idx values i - predicted)%J in
             let dt := (Num.idx values i - meanY)%J in
             ((res + dr * dr)%J, (tot + dt * dt)%J))
          (Fin 0, Fin 0) (seq 0 (length values)) in
  if (ssTot >? Fin 0)%J then (Fin 1 - ssRes / ssTot)%J else Fin 0.

(** The intermediate values of [_hftMomentum], one field per [const];
    [hv_volDivisor] is the divisor [avgVol || 1]. *)
Record HftVars : Type := mkHftVars {
  hv_vwap : num;
  hv_vwapDev : num;
  hv_tickMomentum : num;
  hv_tickDir : num;
  hv_microPrice : num;
  hv_microDev : num;
  hv_avgVol : num;
  hv_volDivisor : num;
  hv_volRatio : num
}.

(** [tickMomentum] of [_hftMomentum]: the loop over [last10] *)
Definition tickMomentumOf (last10 : list Candle) : num :=
  foldl (fun m i => (m + (closeAt last10 i - closeAt last10 (i - 1)))%J)
        (Fin 0) (seq 1 (length last10 - 1)).

(** the [const] bindings of [_hftMomentum] for the window [recent] and its
    last candle [current] *)
Definition hftVars (recent : list Candle) (current : Candle) : HftVars :=
  let vwap := _vwap recent in
  let vwapDev := ((close current - vwap) / vwap * Fin 100)%J in
  let last10 := slice_from recent (-10) in
  let tickMomentum := tickMomentumOf last10 in
  let tickDir := if (tickMomentum >? Fin 0)%J then Fin 1 else Fin (-1) in
  let microPrice :=
    ((high current + low current + close current * Fin 2) / Fin 4)%J in
  let microDev :=
    ((close current - microPrice) / microPrice * Fin 10000)%J in
  let avgVol :=
    (foldl (fun s c => (s + volume c)%J) (Fin 0) (slice recent 0 (-1))
     / (Num.of_nat (length recent) - Fin 1))%J in
  let volDivisor := Num.or_else avgVol (Fin 1) in
  let volRatio := (volume current / volDivisor)%J in
  mkHftVars vwap vwapDev tickMomentum tickDir microPrice microDev
            avgVol volDivisor volRatio.

(* ===================================================================== *)
(** ** Strategies                                                         *)
(* ===================================================================== *)

Section Strategies.

(** [x.toFixed(digits)] *)
Variable toFixed : num -> nat -> string.

(** [_smaCrossover(candles)] *)
Definition _smaCrossover (candles : list Candle) : option Signal :=
  let closes := map close candles in
  let sma10 := _sma closes 10 in
  let sma30 := _sma closes 30 in
  if (length sma10 <? 2) || (length sma30 <? 2) then None
  else
    let curr10 := Num.idx sma10 (length sma10 - 1) in
    let prev10 := Num.idx sma10 (length sma10 - 2) in
    let curr30 := Num.idx sma30 (length sma30 - 1) in
    let prev30 := Num.idx sma30 (length sma30 - 2) in
    let fields := [("sma10", toFixed curr10 2); ("sma30", toFixed curr30 2)] in
    if (prev10 <=? prev30)%J && (curr10 >? curr30)%J then
      Some (mkSignal BUY
              "SMA(10) crossed above SMA(30) — bullish crossover"
              (Num.min2 ((curr10 - curr30) / curr30 * Fin 1000)%J (Fin 100))
              fields)
    else if (prev10 >=? prev30)%J && (curr10 <? curr30)%J then
      Some (mkSignal SELL
              "SMA(10) crossed below SMA(30) — bearish crossover"
              (Num.min2 ((curr30 - curr10) / curr10 * Fin 1000)%J (Fin 100))
              fields)
    else if (curr10 >? curr30 * Fin 1.002)%J then
      Some (mkSignal BUY
              ("SMA(10) " +:+ toFixed curr10 2 +:+ " above SMA(30) "
               +:+ toFixed curr30 2 +:+ " — bullish trend")
              (Fin 40) fields)
    else if (curr10 <? curr30 * Fin 0.998)%J then
      Some (mkSignal SELL
              ("SMA(10) " +:+ toFixed curr10 2 +:+ " below SMA(30) "
               +:+ toFixed curr30 2 +:+ " — bearish trend")
              (Fin 40) fields)
    else
      Some (mkSignal HOLD "SMA(10) ≈ SMA(30) — no clear trend"
              (Fin 10) fields).

(** [_rsiStrategy(candles)] *)
Definition _rsiStrategy (candles : list Candle) : option Signal :=
  let closes := map close candles in
  match _rsi closes 14 with
  | None => None
  | Some rsi =>
      let shown := toFixed rsi 1 in
      let fields := [("rsi", shown)] in
      if (rsi <=? Fin 25)%J then
        Some (mkSignal BUY
                ("RSI(14) = " +:+ shown
                 +:+ " — deeply oversold, strong buy signal")
                (Fin 90) fields)
      else if (rsi <=? Fin 30)%J then
        Some (mkSignal BUY
                ("RSI(14) = " +:+ shown +:+ " — oversold territory")
                (Fin 70) fields)
      else if (rsi >=? Fin 75)%J then
        Some (mkSignal SELL
                ("RSI(14) = " +:+ shown
                 +:+ " — deeply overbought, strong sell signal")
                (Fin 90) fields)
      else if (rsi >=? Fin 70)%J then
        Some (mkSignal SELL
                ("RSI(14) = " +:+ shown +:+ " — overbought territory")
                (Fin 70) fields)
      else
        Some (mkSignal HOLD
                ("RSI(14) = " +:+ shown +:+ " — neutral zone")
                (Fin 10) fields)
  end.

(** [_breakoutStrategy(candles)] *)
Definition _breakoutStrategy (candles : list Candle) : option Signal :=
  if length candles <? 21 then None
  else
    let recent := slice candles (-21) (-1) in
    match candles !! (length candles - 1) with
    | None => None (* not reached: the array has 21 elements or more *)
    | Some current =>
        let high20 := Num.maxl (map high recent) in
        let low20 := Num.minl (map low recent) in
        let range := (high20 - low20)%J in
        if (close current >? high20)%J then
          Some (mkSignal BUY
                  ("Price broke above 20-period high $"
                   +:+ toFixed high20 2 +:+ " — breakout buy")
                  (Num.min2 ((close current - high20) / range * Fin 200)%J
                            (Fin 100))
                  [("level", toFixed high20 2)])
        else if (close current <? low20)%J then
          Some (mkSignal SELL
                  ("Price broke below 20-period low $"
                   +:+ toFixed low20 2 +:+ " — breakdown sell")
                  (Num.min2 ((low20 - close current) / range * Fin 200)%J
                            (Fin 100))
                  [("level", toFixed low20 2)])
        else
          Some (mkSignal HOLD
                  ("Price within range [$" +:+ toFixed low20 2 +:+ " – $"
                   +:+ toFixed high20 2 +:+ "]")
                  (Fin 10)
                  [("level", toFixed low20 2 +:+ "-" +:+ toFixed high20 2)])
    end.

(** [_hftMomentum(candles)] *)
Definition _hftMomentum (candles : list Candle) : option Signal :=
  if length candles <? 30 then None
  else
    let recent := slice_from candles (-30) in
    match recent !! (length recent - 1) with
    | None => None (* not reached: the window has 30 elements *)
    | Some current =>
        let v := hftVars recent current in
        let vwapDev := hv_vwapDev v in
        let tickDir := hv_tickDir v in
        let volRatio := hv_volRatio v in
        if (vwapDev <? Fin (-0.15))%J && (tickDir >? Fin 0)%J
           && (volRatio >? Fin 1.3)%J then
          Some (mkSignal BUY
                  ("HFT: Price " +:+ toFixed vwapDev 2
                   +:+ "% below VWAP with positive tick momentum, volume surge "
                   +:+ toFixed volRatio 1 +:+ "x")
                  (Num.min2 (Num.abs vwapDev * Fin 200 + volRatio * Fin 10)%J
                            (Fin 100))
                  [("vwap", toFixed (hv_vwap v) 2)])
        else if (vwapDev >? Fin 0.15)%J && (tickDir <? Fin 0)%J
                && (volRatio >? Fin 1.3)%J then
          Some (mkSignal SELL
                  ("HFT: Price " +:+ toFixed vwapDev 2
                   +:+ "% above VWAP with negative tick momentum, volume surge "
                   +:+ toFixed volRatio 1 +:+ "x")
                  (Num.min2 (Num.abs vwapDev * Fin 200 + volRatio * Fin 10)%J
                            (Fin 100))
                  [("vwap", toFixed (hv_vwap v) 2)])
        else
          Some (mkSignal HOLD
                  ("HFT: VWAP dev " +:+ toFixed vwapDev 2 +:+ "%, tick "
                   +:+ (if (tickDir >? Fin 0)%J then "+" else "-")
                   +:+ ", vol ratio " +:+ toFixed volRatio 1
                   +:+ "x — no signal")
                  (Fin 10)
                  [("vwap", toFixed (hv_vwap v) 2)])
    end.

(** [_linearRegression(candles)] *)
Definition _linearRegression (candles : list Candle) : option Signal :=
  if length candles <? 50 then None
  else
    let closes := map close (slice_from candles (-50)) in
    let shortSlope := _linearRegSlope (slice_from closes (-20)) in
    let longSlope := _linearRegSlope closes in
    let avgPrice := (Num.total closes / Num.of_nat (length closes))%J in
    let shortSlopeNorm := (shortSlope / avgPrice * Fin 100)%J in
    let longSlopeNorm := (longSlope / avgPrice * Fin 100)%J in
    let rSquared := _rSquared (slice_from closes (-20)) in
    if (shortSlopeNorm >? Fin 0.05)%J && (longSlopeNorm >? Fin 0)%J
       && (rSquared >? Fin 0.6)%J then
      Some (mkSignal BUY
              ("LR: Short slope +" +:+ toFixed shortSlopeNorm 3
               +:+ "%/bar, long slope +" +:+ toFixed longSlopeNorm 3
               +:+ "%/bar, R²=" +:+ toFixed rSquared 2
               +:+ " — strong uptrend")
              (Num.min2 (rSquared * Fin 100)%J (Fin 100)) [])
    else if (shortSlopeNorm <? Fin (-0.05))%J && (longSlopeNorm <? Fin 0)%J
            && (rSquared >? Fin 0.6)%J then
      Some (mkSignal SELL
              ("LR: Short slope " +:+ toFixed shortSlopeNorm 3
               +:+ "%/bar, long slope " +:+ toFixed longSlopeNorm 3
               +:+ "%/bar, R²=" +:+ toFixed rSquared 2
               +:+ " — strong downtrend")
              (Num.min2 (rSquared * Fin 100)%J (Fin 100)) [])
    else if (shortSlopeNorm >? Fin 0.1)%J
            && (longSlopeNorm <? Fin (-0.02))%J then
      Some (mkSignal SELL
              ("LR Mean Reversion: Short-term bounce ("
               +:+ toFixed shortSlopeNorm 3
               +:+ "%/bar) in long-term downtrend — sell the rally")
              (Num.min2 (Num.abs shortSlopeNorm * Fin 300)%J (Fin 80)) [])
    else if (shortSlopeNorm <? Fin (-0.1))%J
            && (longSlopeNorm >? Fin 0.02)%J then
      Some (mkSignal BUY
              ("LR Mean Reversion: Short-term dip ("
               +:+ toFixed shortSlopeNorm 3
               +:+ "%/bar) in long-term uptrend — buy the dip")
              (Num.min2 (Num.abs shortSlopeNorm * Fin 300)%J (Fin 80)) [])
    else
      Some (mkSignal HOLD
              ("LR: Slope short=" +:+ toFixed shortSlopeNorm 3
               +:+ "%, long=" +:+ toFixed longSlopeNorm 3
               +:+ "%, R²=" +:+ toFixed rSquared 2
               +:+ " — no clear signal")
              (Fin 10) []).

(** [_runStrategy(name, sym, candles)] *)
Definition _runStrategy (name sym : string) (candles : list Candle)
  : option Signal :=
  if String.eqb name "sma_crossover" then _smaCrossover candles
  else if String.eqb name "rsi" then _rsiStrategy candles
  else if String.eqb name "breakout" then _breakoutStrategy candles
  else if String.eqb name "hft_momentum" then _hftMomentum candles
  else if String.eqb name "linear_regression" then _linearRegression candles
  else None.

End Strategies.

(* ===================================================================== *)
(** ** Engine state                                                       *)
(* ===================================================================== *)

(** A viewer connection: its identity and its [readyState]. *)
Record Client : Type := mkClient {
  cid : nat;
  readyState : nat
}.

(** [WebSocket.OPEN] *)
Definition OPEN : nat := 1.

(** The payloads given to [broadcast] by the modelled methods. *)
Inductive Event : Type :=
  | EvUnsubscribed (symbol : string)
  | EvPrice (symbol : string) (price hi lo vol : num) (t : Z)
  | EvSignal (symbol strategy : string) (signal : Signal) (t : Z).

(** The fields of [LiveSignalEngine].  An upstream socket is known by a
    handle; [closedSockets] lists the handles on which [close()] was
    called and [sent] the messages written to viewers, oldest first. *)
Record Engine : Type := mkEngine {
  clients : list Client;
  binanceSockets : gmap string nat;
  candles : gmap string (list Candle);
  activeStrategies : gmap string (list string);
  lastSignals : gmap string (gmap string Signal);
  closedSockets : list nat;
  sent : list (nat * Event)
}.

(** Result of a method that may raise: the state reached, and whether a
    [TypeError] interrupted it. *)
Inductive outcome : Type :=
  | Done (st : Engine)
  | Threw (st : Engine).

Definition state_of (o : outcome) : Engine :=
  match o with
  | Done st | Threw st => st
  end.

(** [s.toLowerCase()] and [s.toUpperCase()] on ASCII ticker names *)
Definition lower_ascii (c : ascii) : ascii :=
  let n := nat_of_ascii c in
  if (65 <=? n) && (n <=? 90) then ascii_of_nat (n + 32) else c.

Definition upper_ascii (c : ascii) : ascii :=
  let n := nat_of_ascii c in
  if (97 <=? n) && (n <=? 122) then ascii_of_nat (n - 32) else c.

Fixpoint toLowerCase (s : string) : string :=
  match s with
  | EmptyString => EmptyString
  | String c r => String (lower_ascii c) (toLowerCase r)
  end.

Fixpoint toUpperCase (s : string) : string :=
  match s with
  | EmptyString => EmptyString
  | String c r => String (upper_ascii c) (toUpperCase r)
  end.

(** [s.replace('/', '')]: the first slash is removed *)
Fixpoint replaceSlash (s : string) : string :=
  match s with
  | EmptyString => EmptyString
  | String c r => if Ascii.eqb c "/" then r else String c (replaceSlash r)
  end.

(** What [broadcast(data)] writes: the message, once for every client
    whose [readyState] is [OPEN]. *)
Definition deliveries (st : Engine) (data : Event) : list (nat * Event) :=
  map (fun c => (cid c, data))
      (filter (fun c => readyState c = OPEN) (clients st)).

(** [broadcast(data)] *)
Definition broadcast (st : Engine) (data : Event) : Engine :=
  mkEngine (clients st) (binanceSockets st) (candles st)
           (activeStrategies st) (lastSignals st) (closedSockets st)
           (sent st ++ deliveries st data).

(** [unsubscribe(symbol)], on the entries that the dictionaries hold
    themselves *)
Definition unsubscribe (st : Engine) (symbol : string) : Engine :=
  let sym := replaceSlash (toLowerCase symbol) in
  let '(sockets, closed') :=
    match binanceSockets st !! sym with
    | Some sock => (delete sym (binanceSockets st), closedSockets st ++ [sock])
    | None => (binanceSockets st, closedSockets st)
    end in
  broadcast
    (mkEngine (clients st) sockets
              (delete sym (candles st))
              (delete sym (activeStrategies st))
              (delete sym (lastSignals st))
              closed' (sent st))
    (EvUnsubscribed (toUpperCase sym)).

(** [_isNewSignal(sym, strat, signal)] *)
Definition _isNewSignal (st : Engine) (sym strat : string) (signal : Signal)
  : bool :=
  match lastSignals st !! sym ≫= (fun m => m !! strat) with
  | None => true
  | Some last => negb (action_eqb (action last) (action signal))
  end.

(** The "update or append" step of [_processKline] on the symbol's array:
    replace the last candle, or push and keep the last 500, or leave the
    array as it is. *)
Definition updateCandles (cs : list Candle) (candle : Candle) : list Candle :=
  if (0 <? length cs)
     && match cs !! (length cs - 1) with
        | Some l => (time l =? time candle)%Z
        | None => false
        end
  then <[length cs - 1 := candle]> cs
  else if closed candle || (length cs =? 0) then
    let pushed := cs ++ [candle] in
    if 500 <? length pushed then drop 1 pushed else pushed
  else cs.

(** The candle built from a kline. *)
Definition candleOf (k : Kline) : Candle :=
  mkCandle (k_t k) (k_o k) (k_h k) (k_l k) (k_c k) (k_v k) (k_x k).

Section Engine.

Variable toFixed : num -> nat -> string.

(** The body of the strategy loop of [_processKline] once a strategy has
    returned [signal]: record and broadcast it when it is new.  [now] is
    the value of [Date.now()]. *)
Definition emitSignal (now : Z) (sym strat : string) (signal : Signal)
    (st : Engine) : outcome :=
  if _isNewSignal st sym strat signal then
    match lastSignals st !! sym with
    | None => Threw st
    | Some m =>
        Done (broadcast
                (mkEngine (clients st) (binanceSockets st) (candles st)
                          (activeStrategies st)
                          (<[sym := <[strat := signal]> m]> (lastSignals st))
                          (closedSockets st) (sent st))
                (EvSignal (toUpperCase sym) strat signal now))
    end
  else Done st.

(** The strategy loop of [_processKline]. *)
Fixpoint runStrategies (now : Z) (sym : string) (cs : list Candle)
    (strategies : list string) (st : Engine) : outcome :=
  match strategies with
  | [] => Done st
  | strat :: rest =>
      match _runStrategy toFixed strat sym cs with
      | None => runStrategies now sym cs rest st
      | Some signal =>
          match emitSignal now sym strat signal st with
          | Done st' => runStrategies now sym cs rest st'
          | Threw st' => Threw st'
          end
      end
  end.

(** [_processKline(sym, kline)]; a missing [kline] is [None]. *)
Definition _processKline (now : Z) (st : Engine) (sym : string)
    (kline : option Kline) : outcome :=
  match kline with
  | None => Done st
  | Some k =>
      let candle := candleOf k in
      match candles st !! sym with
      | None => Threw st
      | Some cs =>
          let cs' := updateCandles cs candle in
          let st1 :=
            broadcast
              (mkEngine (clients st) (binanceSockets st)
                        (<[sym := cs']> (candles st))
                        (activeStrategies st) (lastSignals st)
                        (closedSockets st) (sent st))
              (EvPrice (toUpperCase sym) (close candle) (high candle)
                       (low candle) (volume candle) (time candle)) in
          if closed candle && (50 <=? length cs') then
            runStrategies now sym cs'
              (default [] (activeStrategies st1 !! sym)) st1
          else Done st1
      end
  end.

(** A feed: the ticks of one symbol handled in order; a tick that raises
    is dropped by the message handler's [try]/[catch] and the engine goes
    on from the state it reached. *)
Fixpoint feed (now : Z) (st : Engine) (sym : string) (ticks : list Kline)
  : Engine :=
  match ticks with
  | [] => st
  | k :: rest =>
      feed now (state_of (_processKline now st sym (Some k))) sym rest
  end.

End Engine.

(* ===================================================================== *)
(** ** Subscribing and the upstream handlers                              *)
(* ===================================================================== *)

(** A row of the REST reply read by [_fetchInitialCandles]: the open time
    [k[0]] and the five fields passed through [parseFloat]. *)
Record Row : Type := mkRow {
  r_t : Z;
  r_o : num;
  r_h : num;
  r_l : num;
  r_c : num;
  r_v : num
}.

(** The candle built from a row: a seeded candle always counts as
    closed. *)
Definition seedCandle (r : Row) : Candle :=
  mkCandle (r_t r) (r_o r) (r_h r) (r_l r) (r_c r) (r_v r) true.

(** [_fetchInitialCandles(sym)] once the request has settled: [Some rows]
    is a reply that parses to an array of rows; [None] is any failure
    inside the [try] (network error, a body that is not an array), which
    the [catch] turns into an empty history. *)
Definition _fetchInitialCandles (st : Engine) (sym : string)
    (reply : option (list Row)) : Engine :=
  mkEngine (clients st) (binanceSockets st)
           (<[sym := match reply with
                     | Some rows => map seedCandle rows
                     | None => []
                     end]> (candles st))
           (activeStrategies st) (lastSignals st) (closedSockets st)
           (sent st).

(** [subscribe(symbol, strategies)] up to the call of
    [_fetchInitialCandles]: the new state, and the key whose fetch was
    started, if any. *)
Definition subscribe (st : Engine) (symbol : string)
    (strategies : list string) : Engine * option string :=
  let sym := replaceSlash (toLowerCase symbol) in
  match binanceSockets st !! sym with
  | Some _ => (st, None)
  | None =>
      (mkEngine (clients st) (binanceSockets st)
                (<[sym := []]> (candles st))
                (<[sym := strategies]> (activeStrategies st))
                (<[sym := ∅]> (lastSignals st))
                (closedSockets st) (sent st),
       Some sym)
  end.

(** The messages of the upstream handlers that [Event] does not list;
    they are returned beside the state instead of being appended to
    [sent]. *)
Inductive Notice : Type :=
  | NoteSubscribed (symbol : string) (candleCount : nat).

(** The ['open'] handler of the upstream socket [ws] of [sym]: the handle
    is stored, then the notice is broadcast; reading the length of a
    missing history raises after the handle was stored. *)
Definition socketOpen (st : Engine) (sym : string) (ws : nat)
  : outcome * list (nat * Notice) :=
  let st1 :=
    mkEngine (clients st) (<[sym := ws]> (binanceSockets st)) (candles st)
             (activeStrategies st) (lastSignals st) (closedSockets st)
             (sent st) in
  match candles st !! sym with
  | None => (Threw st1, [])
  | Some cs =>
      (Done st1,
       map (fun c => (cid c, NoteSubscribed (toUpperCase sym) (length cs)))
           (filter (fun c => readyState c = OPEN) (clients st)))
  end.

(** The first statement of the ['close'] handler of the upstream socket. *)
Definition socketClose (st : Engine) (sym : string) : Engine :=
  mkEngine (clients st) (delete sym (binanceSockets st)) (candles st)
           (activeStrategies st) (lastSignals st) (closedSockets st)
           (sent st).

(** The callback that the ['close'] handler schedules after 5 seconds. *)
Definition reconnect (st : Engine) (sym : string) : Engine * option string :=
  match activeStrategies st !! sym with
  | Some strategies => subscribe (socketClose st sym) sym strategies
  | None => (st, None)
  end.

(** A parsed viewer message: [type], [symbol], and [strategies] when the
    message carries a list. *)
Record ClientMsg : Type := mkClientMsg {
  m_type : string;
  m_symbol : string;
  m_strategies : option (list string)
}.

(** The list used when a subscribe message names no strategies. *)
Definition defaultStrategies : list string :=
  ["sma_crossover"; "rsi"; "breakout"; "hft_momentum"; "linear_regression"].

(** [_handleClientMessage(ws, msg)] *)
Definition _handleClientMessage (st : Engine) (msg : ClientMsg)
  : Engine * option string :=
  if String.eqb (m_type msg) "subscribe" then
    subscribe st (m_symbol msg)
              (default defaultStrategies (m_strategies msg))
  else if String.eqb (m_type msg) "unsubscribe" then
    (unsubscribe st (m_symbol msg), None)
  else (st, None).

Section Upstream.

Variable toFixed : num -> nat -> string.

(** The ['message'] handler of the upstream socket of [sym]: [None] is a
    frame that [JSON.parse] rejects, [Some kline] the [k] field of a parsed
    frame; whatever is raised is swallowed by the [catch]. *)
Definition socketMessage (now : Z) (st : Engine) (sym : string)
    (data : option (option Kline)) : Engine :=
  match data with
  | None => st
  | Some kline => state_of (_processKline toFixed now st sym kline)
  end.

End Upstream.

(* ===================================================================== *)
(** ** The dictionaries as plain objects                                  *)
(* ===================================================================== *)

(** The four dictionaries are object literals.  A read [dict[name]] finds
    the entry that the dictionary holds under [name] and, when it holds
    none, the member of [Object.prototype] of that name: a function, or
    for [__proto__] the prototype itself, and in either case a value that
    is truthy and has no [close] method.  These are the names of the
    members. *)
Definition objectPrototype : list string :=
  ["constructor"; "__defineGetter__"; "__defineSetter__"; "hasOwnProperty";
   "__lookupGetter__"; "__lookupSetter__"; "isPrototypeOf";
   "propertyIsEnumerable"; "toString"; "valueOf"; "__proto__";
   "toLocaleString"].

Definition inherited (name : string) : bool :=
  existsb (String.eqb name) objectPrototype.

(** A string of ASCII characters only; on these [toLowerCase] and
    [toUpperCase] above are the case mappings of JavaScript. *)
Fixpoint ascii_only (s : string) : bool :=
  match s with
  | EmptyString => true
  | String c r => (nat_of_ascii c <? 128) && ascii_only r
  end.

(** The symbols on which [subscribe], [unsubscribe] and the handlers
    above are the code: ticker names written in ASCII whose key is not
    the name of an inherited member, so that a read of a dictionary under
    the key finds the dictionary's own entry or nothing. *)
Definition ordinary (symbol : string) : Prop :=
  ascii_only symbol = true
  /\ inherited (replaceSlash (toLowerCase symbol)) = false.

Module Plain.

Section Runtime.

(** [String.prototype.toLowerCase] and [String.prototype.toUpperCase] of
    the runtime, which map every Unicode letter. *)
Variable lowerCase upperCase : string -> string.

(** [unsubscribe(symbol)] for any symbol.  When [binanceSockets] holds no
    entry under the key and the key is the name of an inherited member,
    the test [this.binanceSockets[sym]] passes on that member and the
    call of its missing [close] raises a [TypeError] before anything is
    deleted or sent. *)
Definition unsubscribe (st : Engine) (symbol : string) : outcome :=
  let sym := replaceSlash (lowerCase symbol) in
  let notice := EvUnsubscribed (upperCase sym) in
  match binanceSockets st !! sym with
  | Some sock =>
      Done (broadcast
              (mkEngine (clients st)
                        (delete sym (binanceSockets st))
                        (delete sym (candles st))
                        (delete sym (activeStrategies st))
                        (delete sym (lastSignals st))
                        (closedSockets st ++ [sock]) (sent st))
              notice)
  | None =>
      if inherited sym then Threw st
      else
        Done (broadcast
                (mkEngine (clients st) (binanceSockets st)
                          (delete sym (candles st))
                          (delete sym (activeStrategies st))
                          (delete sym (lastSignals st))
                          (closedSockets st) (sent st))
                notice)
  end.

End Runtime.

End Plain.

(* ===================================================================== *)
(** ** Predicates used in the statements                                  *)
(* ===================================================================== *)

(** Times strictly increase along the buffer and none exceeds [bound]. *)
Definition increasing_upto (bound : Z) (cs : list Candle) : Prop :=
  StronglySorted Z.lt (map time cs)
  /\ Forall (fun c => (time c <= bound)%Z) cs.

(** The entry of the last-signal table for a (symbol, strategy) pair:
    [this.lastSignals[sym]?.[strat]]. *)
Definition recorded (st : Engine) (sym strat : string) : option Signal :=
  lastSignals st !! sym ≫= (fun m => m !! strat).

(** The [period]-bar simple moving average at bar [i]: the mean of the
    [period] values that end at index [i]. *)
Definition windowMean (values : list num) (period i : nat) : num :=
  (Num.total (take period (drop (i + 1 - period) values))
   / Num.of_nat period)%J.

(** The 20 candles before the latest one. *)
Definition prior20 (cs : list Candle) : list Candle :=
  take 20 (drop (length cs - 21) cs).

(** A candle with finite, strictly positive prices and a finite volume
    that is not negative. *)
Definition priced (c : Candle) : Prop :=
  Num.pos (open c) /\ Num.pos (high c) /\ Num.pos (low c)
  /\ Num.pos (close c)
  /\ Num.finite (volume c) /\ Num.nonneg (volume c).

(** A candle whose low does not exceed its high. *)
Definition ordered (c : Candle) : Prop := Num.leb (low c) (high c) = true.

(** A strength between 0 and 100, both included. *)
Definition in_range (x : num) : Prop :=
  Num.leb (Fin 0) x = true /\ Num.leb x (Fin 100) = true.

(* ===================================================================== *)
(** ** Concrete inputs used by the examples                               *)
(* ===================================================================== *)

Fixpoint zeros (k : nat) : string :=
  match k with
  | 0 => EmptyString
  | S k' => String "0" (zeros k')
  end.

(** A decimal formatter for the examples: the digits of the exact value,
    rounded half away from zero to [f] places, as [toFixed] prints a number
    that the binary format holds exactly and that is below 10^21. *)
Definition toFixedDec (x : num) (f : nat) : string :=
  match x with
  | NaN => "NaN"
  | PInf => "Infinity"
  | NInf => "-Infinity"
  | Fin q =>
      let n := Qfloor (Qabs q * inject_Z (10 ^ Z.of_nat f) + 0.5)%Q in
      let ds := NilZero.string_of_uint (N.to_uint (Z.to_N n)) in
      let padded := zeros (f + 1 - String.length ds) +:+ ds in
      let k := String.length padded - f in
      (if Num.Qltb q 0 then "-" else "")
      +:+ substring 0 k padded
      +:+ (if f =? 0 then "" else "." +:+ substring k f padded)
  end.

(** A flat candle: all four prices [p], volume [v]. *)
Definition flat (t : Z) (p v : Q) : Candle :=
  mkCandle t (Fin p) (Fin p) (Fin p) (Fin p) (Fin v) true.

(** [n] flat candles at times [t], [t+1], ... *)
Fixpoint flats (n : nat) (t : Z) (p v : Q) : list Candle :=
  match n with
  | 0 => []
  | S n' => flat t p v :: flats n' (t + 1) p v
  end.

(** An engine subscribed to one symbol, with the given history. *)
Definition engineWith (sym : string) (cs : list Candle) : Engine :=
  mkEngine [mkClient 0 OPEN] ∅ {[sym := cs]}
           {[sym := ["sma_crossover"; "rsi"; "breakout"; "hft_momentum";
                     "linear_regression"]]}
           {[sym := ∅]} [] [].

Definition tick (t : Z) (p : Q) (x : bool) : Kline :=
  mkKline t (Fin p) (Fin p) (Fin p) (Fin p) (Fin 1) x.

(** Signals used in the examples. *)
Definition sigBuyStrong : Signal := mkSignal BUY "first" (Fin 90) [].
Definition sigBuyWeak : Signal := mkSignal BUY "second" (Fin 70) [].
Definition sigSell : Signal := mkSignal SELL "third" (Fin 70) [].

(** A candle whose high (1) lies below its low (2), with close [p]; and a
    history of twenty of them followed by one that closes at [p]. *)
Definition inverted (t : Z) (p : Q) : Candle :=
  mkCandle t (Fin 1) (Fin 1) (Fin 2) (Fin p) (Fin 1) true.

Definition invertedHistory (p : Q) : list Candle :=
  replicate 20 (inverted 0 1) ++ [inverted 1 p].

(* ===================================================================== *)
(** ** Predicates and inputs of the further properties                    *)
(* ===================================================================== *)

(** [st'] differs from [st] at most in the history and the last-signal
    table of [sym] and in the log of sent messages. *)
Definition frame_outside (sym : string) (st st' : Engine) : Prop :=
  clients st' = clients st
  /\ binanceSockets st' = binanceSockets st
  /\ activeStrategies st' = activeStrategies st
  /\ closedSockets st' = closedSockets st
  /\ forall other,
       other <> sym ->
       candles st' !! other = candles st !! other
       /\ lastSignals st' !! other = lastSignals st !! other.

(** A logged message addressed to one of the clients [cl] whose
    [readyState] is [OPEN]. *)
Definition to_open (cl : list Client) (d : nat * Event) : Prop :=
  exists c, c ∈ cl /\ cid c = d.1 /\ readyState c = OPEN.

Section SignalPredicates.

Variable toFixed : num -> nat -> string.

(** The table entry of [strat] carries the action that the strategy
    returns on [cs], if it returns a signal. *)
Definition in_sync (sym : string) (cs : list Candle) (st : Engine)
    (strat : string) : Prop :=
  forall s,
    _runStrategy toFixed strat sym cs = Some s ->
    exists last, recorded st sym strat = Some last
                 /\ action last = action s.

(** A logged message that is a signal of [sym]: what a strategy returns
    on [cs], with an action that the table of [st0] did not hold for that
    strategy. *)
Definition fresh_signal (sym : string) (cs : list Candle) (st0 : Engine)
    (d : nat * Event) : Prop :=
  match d.2 with
  | EvSignal symbol strat s _ =>
      symbol = toUpperCase sym
      /\ _runStrategy toFixed strat sym cs = Some s
      /\ (recorded st0 sym strat = None
          \/ exists last, recorded st0 sym strat = Some last
                          /\ action last <> action s)
  | _ => False
  end.

End SignalPredicates.

(** Every difference [values[i] - values[i-1]] passes the test [>= 0]. *)
Definition neverFalls (values : list num) : Prop :=
  forall i, 1 <= i -> i < length values ->
    (Num.idx values i - Num.idx values (i - 1) >=? Fin 0)%J = true.

(** Finite values of which each is strictly below the one before. *)
Definition alwaysFalls (values : list num) : Prop :=
  Forall Num.finite values
  /\ forall i, 1 <= i -> i < length values ->
       (Num.idx values i - Num.idx values (i - 1) <? Fin 0)%J = true.

(** Candles at times [t], [t+1], ... that close at [p], [p + d],
    [p + 2d], ... *)
Fixpoint ramp (n : nat) (t : Z) (p d : Q) : list Candle :=
  match n with
  | 0 => []
  | S n' => flat t p 1 :: ramp n' (t + 1) (p + d) d
  end.

(** Rows at times [t], [t+1], ..., all at price [p]. *)
Fixpoint rows (n : nat) (t : Z) (p : Q) : list Row :=
  match n with
  | 0 => []
  | S n' => mkRow t (Fin p) (Fin p) (Fin p) (Fin p) (Fin 1) :: rows n' (t + 1) p
  end.

(** A pair of finite numbers: a first one equal to zero and a second one
    above zero. *)
Definition zero_gain_pair (a : num * num) : Prop :=
  exists x y, a = (Fin x, Fin y) /\ (x == 0)%Q /\ (0 < y)%Q.

(** The number of slashes in a symbol. *)
Fixpoint slashes (s : string) : nat :=
  match s with
  | EmptyString => 0
  | String c r => (if Ascii.eqb c "/" then 1 else 0) + slashes r
  end.

(** [st'] has the dictionaries, the socket handles and the lists of [st]
    at every key but [sym]. *)
Definition same_elsewhere (sym : string) (st st' : Engine) : Prop :=
  clients st' = clients st
  /\ closedSockets st' = closedSockets st
  /\ sent st' = sent st
  /\ forall other,
       other <> sym ->
       candles st' !! other = candles st !! other
       /\ activeStrategies st' !! other = activeStrategies st !! other
       /\ lastSignals st' !! other = lastSignals st !! other
       /\ binanceSockets st' !! other = binanceSockets st !! other.

(* ===================================================================== *)
(** ** Double precision                                                   *)
(* ===================================================================== *)

(** The numbers of JavaScript are the binary64 numbers of IEEE 754, which
    are the primitive [float]s: a sum, a product or a quotient is rounded
    to the nearest number, overflows to an infinity and underflows to
    zero.  Which averages the trend-cross rule finds crossed, and which
    divisors of the microstructure evaluator are zero, depends on that
    rounding, so [_sma], [_smaCrossover], [_vwap] and [_hftMomentum] are
    embedded here a second time, line by line as above, over [float].  A
    decimal literal stands for the nearest binary64 number, as it does in
    the source. *)

#[local] Set Warnings "-inexact-float".

Module F64.

(** a length or a period as a number *)
Definition of_nat (n : nat) : float := of_uint63 (Uint63.of_Z (Z.of_nat n)).

(** truthiness of a number ([0], [-0] and NaN are falsy), and [a || b] *)
Definition truthy (a : float) : bool :=
  negb (a =? 0)%float && (a =? a)%float.

Definition or_else (a b : float) : float := if truthy a then a else b.

(** [Math.min(a, b)]: NaN when either is NaN, and [-0] below [0] *)
Definition min2 (a b : float) : float :=
  if is_nan a || is_nan b then nan
  else if (a <? b)%float then a
  else if (b <? a)%float then b
  else if get_sign a then a else b.

(** [l.reduce((a, b) => a + b, 0)] *)
Definition total (l : list float) : float := foldl PrimFloat.add 0%float l.

(** [l[i]] used as a number: a missing element is [undefined], which
    arithmetic and comparisons treat as NaN *)
Definition idx (l : list float) (i : nat) : float := default nan (l !! i).

Record Candle : Type := mkCandle {
  time : Z;
  open : float;
  high : float;
  low : float;
  close : float;
  volume : float;
  closed : bool
}.

Record Signal : Type := mkSignal {
  action : Action;
  reason : string;
  strength : float;
  extra : list (string * string)
}.

(** [l[i].close], where [i] is in range *)
Definition closeAt (l : list Candle) (i : nat) : float :=
  match l !! i with
  | Some c => close c
  | None => nan
  end.

(** [_sma(values, period)], for a period of at least 1 *)
Definition _sma (values : list float) (period : nat) : list float :=
  if length values <? period then []
  else
    map (fun i =>
           (total (slice values (Z.of_nat i - Z.of_nat period + 1)
                                (Z.of_nat i + 1))
            / of_nat period)%float)
        (seq (period - 1) (length values - (period - 1))).

(** the body of the loop of [_vwap], on the pair [(cumPV, cumVol)] *)
Definition vwapStep (acc : float * float) (c : Candle) : float * float :=
  let '(cumPV, cumVol) := acc in
  let typicalPrice := ((high c + low c + close c) / 3)%float in
  ((cumPV + typicalPrice * volume c)%float, (cumVol + volume c)%float).

(** [_vwap(candles)], for a window that is not empty (the evaluator
    passes 30 candles; on an empty array the fallback raises) *)
Definition _vwap (candles : list Candle) : float :=
  let '(cumPV, cumVol) := foldl vwapStep (0%float, 0%float) candles in
  if (0 <? cumVol)%float then (cumPV / cumVol)%float
  else closeAt candles (length candles - 1).

(** The intermediate values of [_hftMomentum], one field per [const];
    [hv_volDivisor] is the divisor [avgVol || 1]. *)
Record HftVars : Type := mkHftVars {
  hv_vwap : float;
  hv_vwapDev : float;
  hv_tickMomentum : float;
  hv_tickDir : float;
  hv_microPrice : float;
  hv_microDev : float;
  hv_avgVol : float;
  hv_volDivisor : float;
  hv_volRatio : float
}.

(** [tickMomentum]: the loop over [last10] *)
Definition tickMomentumOf (last10 : list Candle) : float :=
  foldl (fun m i => (m + (closeAt last10 i - closeAt last10 (i - 1)))%float)
        0%float (seq 1 (length last10 - 1)).

(** the summed volume of [avgVol], over [recent.slice(0, -1)] *)
Definition trailingVolume (recent : list Candle) : float :=
  foldl (fun s c => (s + volume c)%float) 0%float (slice recent 0 (-1)).

(** the [const] bindings of [_hftMomentum] for the window [recent] and its
    last candle [current] *)
Definition hftVars (recent : list Candle) (current : Candle) : HftVars :=
  let vwap := _vwap recent in
  let vwapDev := ((close current - vwap) / vwap * 100)%float in
  let last10 := slice_from recent (-10) in
  let tickMomentum := tickMomentumOf last10 in
  let tickDir := if (0 <? tickMomentum)%float then 1%float else (-1)%float in
  let microPrice :=
    ((high current + low current + close current * 2) / 4)%float in
  let microDev :=
    ((close current - microPrice) / microPrice * 10000)%float in
  let avgVol :=
    (trailingVolume recent / (of_nat (length recent) - 1))%float in
  let volDivisor := or_else avgVol 1%float in
  let volRatio := (volume current / volDivisor)%float in
  mkHftVars vwap vwapDev tickMomentum tickDir microPrice microDev
            avgVol volDivisor volRatio.

Section Strategies.

(** [x.toFixed(digits)] *)
Variable toFixed : float -> nat -> string.

(** [_smaCrossover(candles)] *)
Definition _smaCrossover (candles : list Candle) : option Signal :=
  let closes := map close candles in
  let sma10 := _sma closes 10 in
  let sma30 := _sma closes 30 in
  if (length sma10 <? 2) || (length sma30 <? 2) then None
  else
    let curr10 := idx sma10 (length sma10 - 1) in
    let prev10 := idx sma10 (length sma10 - 2) in
    let curr30 := idx sma30 (length sma30 - 1) in
    let prev30 := idx sma30 (length sma30 - 2) in
    let fields := [("sma10", toFixed curr10 2); ("sma30", toFixed curr30 2)] in
    if (prev10 <=? prev30)%float && (curr30 <? curr10)%float then
      Some (mkSignal BUY
              "SMA(10) crossed above SMA(30) — bullish crossover"
              (min2 ((curr10 - curr30) / curr30 * 1000)%float 100%float)
              fields)
    else if (prev30 <=? prev10)%float && (curr10 <? curr30)%float then
      Some (mkSignal SELL
              "SMA(10) crossed below SMA(30) — bearish crossover"
              (min2 ((curr30 - curr10) / curr10 * 1000)%float 100%float)
              fields)
    else if (curr30 * 1.002 <? curr10)%float then
      Some (mkSignal BUY
              ("SMA(10) " +:+ toFixed curr10 2 +:+ " above SMA(30) "
               +:+ toFixed curr30 2 +:+ " — bullish trend")
              40%float fields)
    else if (curr10 <? curr30 * 0.998)%float then
      Some (mkSignal SELL
              ("SMA(10) " +:+ toFixed curr10 2 +:+ " below SMA(30) "
               +:+ toFixed curr30 2 +:+ " — bearish trend")
              40%float fields)
    else
      Some (mkSignal HOLD "SMA(10) ≈ SMA(30) — no clear trend"
              10%float fields).

(** [_hftMomentum(candles)] *)
Definition _hftMomentum (candles : list Candle) : option Signal :=
  if length candles <? 30 then None
  else
    let recent := slice_from candles (-30) in
    match recent !! (length recent - 1) with
    | None => None (* not reached: the window has 30 elements *)
    | Some current =>
        let v := hftVars recent current in
        let vwapDev := hv_vwapDev v in
        let tickDir := hv_tickDir v in
        let volRatio := hv_volRatio v in
        if (vwapDev <? -0.15)%float && (0 <? tickDir)%float
           && (1.3 <? volRatio)%float then
          Some (mkSignal BUY
                  ("HFT: Price " +:+ toFixed vwapDev 2
                   +:+ "% below VWAP with positive tick momentum, volume surge "
                   +:+ toFixed volRatio 1 +:+ "x")
                  (min2 (abs vwapDev * 200 + volRatio * 10)%float 100%float)
                  [("vwap", toFixed (hv_vwap v) 2)])
        else if (0.15 <? vwapDev)%float && (tickDir <? 0)%float
                && (1.3 <? volRatio)%float then
          Some (mkSignal SELL
                  ("HFT: Price " +:+ toFixed vwapDev 2
                   +:+ "% above VWAP with negative tick momentum, volume surge "
                   +:+ toFixed volRatio 1 +:+ "x")
                  (min2 (abs vwapDev * 200 + volRatio * 10)%float 100%float)
                  [("vwap", toFixed (hv_vwap v) 2)])
        else
          Some (mkSignal HOLD
                  ("HFT: VWAP dev " +:+ toFixed vwapDev 2 +:+ "%, tick "
                   +:+ (if (0 <? tickDir)%float then "+" else "-")
                   +:+ ", vol ratio " +:+ toFixed volRatio 1
                   +:+ "x — no signal")
                  10%float
                  [("vwap", toFixed (hv_vwap v) 2)])
    end.

End Strategies.

(** The [period]-bar simple moving average at bar [i], as the program
    computes it: the [period] values that end at index [i], added from
    the left to [0], and the sum divided by [period]. *)
Definition windowMean (values : list float) (period i : nat) : float :=
  (total (take period (drop (i + 1 - period) values)) / of_nat period)%float.

(** A zero of either sign. *)
Definition zero (x : float) : Prop := x = 0%float \/ x = neg_zero.

(** The exact value of a number, and through it the decimal formatter of
    the examples. *)
Definition to_num (x : float) : num :=
  match Prim2SF x with
  | S754_nan => NaN
  | S754_infinity s => if s then NInf else PInf
  | S754_zero _ => Fin 0
  | S754_finite s m e =>
      Fin ((if s then - inject_Z (Zpos m) else inject_Z (Zpos m)) * 2 ^ e)%Q
  end.

Definition toFixedDec (x : float) (f : nat) : string :=
  toFixedDec (to_num x) f.

(** A flat candle and [n] flat candles, as [flat] and [flats] above. *)
Definition flat (t : Z) (p v : float) : Candle := mkCandle t p p p p v true.

Fixpoint flats (n : nat) (t : Z) (p v : float) : list Candle :=
  match n with
  | 0 => []
  | S n' => flat t p v :: flats n' (t + 1) p v
  end.

End F64.

(* ===================================================================== *)
(** ** The candle buffer                                                  *)
(* ===================================================================== *)

Section BufferFacts.

Variable toFixed : num -> nat -> string.

Lemma emitSignal_candles now sym strat signal st :
  candles (state_of (emitSignal now sym strat signal st)) = candles st.
Proof.
  unfold emitSignal.
  destruct (_isNewSignal st sym strat signal); [|done].
  by destruct (lastSignals st !! sym).
Qed.

Lemma runStrategies_candles now sym cs strategies st :
  candles (state_of (runStrategies toFixed now sym cs strategies st))
  = candles st.
Proof.
  revert st. induction strategies as [|strat rest IH]; intros st; simpl.
  - done.
  - destruct (_runStrategy toFixed strat sym cs) as [signal|]; [|apply IH].
    pose proof (emitSignal_candles now sym strat signal st) as He.
    destruct (emitSignal now sym strat signal st) as [st'|st']; simpl in *.
    + by rewrite IH.
    + done.
Qed.

(** What [_processKline] leaves in the symbol's array. *)
Lemma processKline_candles now st sym cs k :
  candles st !! sym = Some cs ->
  candles (state_of (_processKline toFixed now st sym (Some k))) !! sym
  = Some (updateCandles cs (candleOf k)).
Proof.
  intros Hcs. unfold _processKline. rewrite Hcs.
  match goal with
  | |- context [if ?b then _ else _] => destruct b
  end.
  - rewrite runStrategies_candles. simpl. apply lookup_insert_eq.
  - simpl. apply lookup_insert_eq.
Qed.

Lemma feed_cons now st sym k ticks :
  feed toFixed now st sym (k :: ticks)
  = feed toFixed now (state_of (_processKline toFixed now st sym (Some k)))
         sym ticks.
Proof. done. Qed.

End BufferFacts.

(** [l[l.length - 1]] is the last element. *)
Lemma lookup_last {A} (l : list A) : l !! (length l - 1) = last l.
Proof. rewrite last_lookup. f_equal. lia. Qed.

(** The three cases of [updateCandles]. *)
Lemma updateCandles_replace cs l c :
  last cs = Some l -> time l = time c ->
  updateCandles cs c = <[length cs - 1 := c]> cs.
Proof.
  intros Hl Ht. unfold updateCandles.
  rewrite <- lookup_last in Hl.
  rewrite Hl, Ht, Z.eqb_refl.
  apply lookup_lt_Some in Hl.
  destruct (0 <? length cs) eqn:E; [done|].
  apply Nat.ltb_ge in E. lia.
Qed.

Lemma updateCandles_push cs c :
  (forall l, last cs = Some l -> time l <> time c) ->
  closed c = true \/ cs = [] ->
  updateCandles cs c
  = if 500 <? length (cs ++ [c]) then drop 1 (cs ++ [c]) else cs ++ [c].
Proof.
  intros Hne Hc. unfold updateCandles.
  rewrite lookup_last.
  destruct (last cs) as [l|] eqn:El.
  - specialize (Hne l eq_refl). apply Z.eqb_neq in Hne. rewrite Hne.
    rewrite andb_false_r.
    destruct Hc as [-> | ->]; [done | discriminate].
  - rewrite andb_false_r.
    destruct Hc as [-> | ->]; [done|]. simpl. by rewrite orb_true_r.
Qed.

Lemma updateCandles_drop cs l c :
  last cs = Some l -> time l <> time c -> closed c = false ->
  updateCandles cs c = cs.
Proof.
  intros Hl Hne Hc. unfold updateCandles.
  rewrite lookup_last, Hl.
  apply Z.eqb_neq in Hne. rewrite Hne, andb_false_r, Hc. simpl.
  destruct cs; [discriminate|done].
Qed.

Lemma updateCandles_length cs c :
  length cs <= 500 -> length (updateCandles cs c) <= 500.
Proof.
  intros Hlen. unfold updateCandles.
  repeat match goal with
  | |- context [if ?b then _ else _] => destruct b eqn:?
  end; rewrite ?length_insert, ?length_drop, ?length_app; simpl; try lia.
  apply Nat.ltb_ge in Heqb1. rewrite length_app in Heqb1. simpl in *. lia.
Qed.

Lemma increasing_upto_update cs c bound :
  increasing_upto bound cs -> (bound <= time c)%Z ->
  increasing_upto (time c) (updateCandles cs c).
Proof.
  intros [Hs Hb] Hle.
  destruct (last cs) as [l|] eqn:El.
  - destruct (decide (time l = time c)) as [Heq|Hne].
    + rewrite (updateCandles_replace cs l c El Heq).
      assert (Hlk : cs !! (length cs - 1) = Some l).
      { by rewrite lookup_last. }
      split.
      * rewrite list_fmap_insert, list_insert_id; [done|].
        by rewrite list_lookup_fmap, Hlk, <- Heq.
      * apply Forall_insert; [|lia].
        eapply Forall_impl; [exact Hb|]. simpl. intros; lia.
    + assert (Hall : Forall (fun x => (time x < time c)%Z) cs).
      { apply last_Some in El as [init Hinit].
        rewrite Hinit in Hs, Hb |- *.
        rewrite fmap_app in Hs. simpl in Hs.
        rewrite Forall_forall in Hb.
        assert (time l <= bound)%Z by (apply Hb; set_solver).
        apply Forall_forall. intros x Hx.
        apply elem_of_app in Hx as [Hx|Hx].
        - assert (time x < time l)%Z; [|lia].
          eapply (StronglySorted_app_1_elem_of _ _ _ _ _ Hs);
            [by apply list_elem_of_fmap_2|set_solver].
        - apply list_elem_of_singleton in Hx as ->. lia. }
      destruct (closed c) eqn:Ec.
      * rewrite updateCandles_push; [|congruence|by left].
        assert (Hpush : increasing_upto (time c) (cs ++ [c])).
        { split.
          - rewrite fmap_app. apply StronglySorted_app_2; [|done|].
            + intros x1 x2 H1 H2. simpl in H2.
              apply list_elem_of_singleton in H2 as ->.
              apply list_elem_of_fmap in H1 as (y & -> & Hy).
              rewrite Forall_forall in Hall. by apply Hall.
            + simpl. repeat constructor.
          - apply Forall_app. split.
            + eapply Forall_impl; [exact Hall|]. simpl. intros; lia.
            + repeat constructor. lia. }
        destruct (500 <? length (cs ++ [c])); [|done].
        destruct Hpush as [Hs' Hb']. destruct (cs ++ [c]) as [|x r]; [done|].
        simpl in *. rewrite drop_0. split.
        -- by apply StronglySorted_cons in Hs' as [_ ?].
        -- by apply Forall_cons in Hb' as [_ ?].
      * rewrite (updateCandles_drop cs l c El Hne Ec). split; [done|].
        eapply Forall_impl; [exact Hall|]. simpl. intros; lia.
  - apply last_None in El as ->.
    rewrite updateCandles_push; [|done|by right]. simpl.
    split; simpl; repeat constructor. lia.
Qed.

Lemma StronglySorted_lt_NoDup (l : list Z) :
  StronglySorted Z.lt l -> NoDup l.
Proof.
  induction 1 as [|x l Hs IH Hx]; constructor; [|done].
  intros Hin. rewrite Forall_forall in Hx. specialize (Hx x Hin). lia.
Qed.

Lemma feed_increasing toFixed now sym ticks :
  forall st cs bound,
    candles st !! sym = Some cs ->
    increasing_upto bound cs ->
    Sorted Z.le (bound :: map k_t ticks) ->
    exists cs',
      candles (feed toFixed now st sym ticks) !! sym = Some cs'
      /\ StronglySorted Z.lt (map time cs').
Proof.
  induction ticks as [|k rest IH]; intros st cs bound Hcs Hinc Hsorted.
  - exists cs. split; [done|]. by destruct Hinc.
  - rewrite feed_cons.
    apply Sorted_inv in Hsorted as [Hrest Hhd].
    apply HdRel_inv in Hhd. simpl in Hrest.
    eapply (IH _ (updateCandles cs (candleOf k)) (k_t k)).
    + by apply processKline_candles.
    + by apply (increasing_upto_update cs (candleOf k) bound).
    + done.
Qed.

Lemma feed_length toFixed now sym ticks :
  forall st cs,
    candles st !! sym = Some cs -> length cs <= 500 ->
    exists cs',
      candles (feed toFixed now st sym ticks) !! sym = Some cs'
      /\ length cs' <= 500.
Proof.
  induction ticks as [|k rest IH]; intros st cs Hcs Hlen.
  - by exists cs.
  - rewrite feed_cons.
    eapply (IH _ (updateCandles cs (candleOf k))).
    + by apply processKline_candles.
    + by apply updateCandles_length.
Qed.

(** C1 (as amended).  Starting from an empty buffer, any sequence of ticks
    whose timestamps never decrease leaves the buffer with strictly
    increasing timestamps, so no two entries share a timestamp; and a tick
    whose timestamp equals that of the last buffered entry replaces that
    entry in place: the length and all earlier entries are unchanged. *)
Theorem processKline_distinct_times toFixed now sym :
  (forall st ticks,
      candles st !! sym = Some [] ->
      Sorted Z.le (map k_t ticks) ->
      exists cs,
        candles (feed toFixed now st sym ticks) !! sym = Some cs
        /\ StronglySorted Z.lt (map time cs)
        /\ NoDup (map time cs))
  /\ (forall st cs l k,
      candles st !! sym = Some cs ->
      last cs = Some l ->
      time l = k_t k ->
      exists cs',
        candles (state_of (_processKline toFixed now st sym (Some k))) !! sym
        = Some cs'
        /\ cs' = <[length cs - 1 := candleOf k]> cs
        /\ length cs' = length cs
        /\ last cs' = Some (candleOf k)
        /\ take (length cs - 1) cs' = take (length cs - 1) cs).
Proof.
  split.
  - intros st ticks Hcs Hsorted.
    destruct ticks as [|k rest].
    { exists []. simpl. repeat split; [done| |]; constructor. }
    destruct (feed_increasing toFixed now sym (k :: rest) st [] (k_t k))
      as (cs & Hl & Hs); [done| | |].
    + split; constructor.
    + constructor; [done|]. constructor. simpl. lia.
    + exists cs. repeat split; [done|done|]. by apply StronglySorted_lt_NoDup.
  - intros st cs l k Hcs Hl Ht.
    exists (<[length cs - 1 := candleOf k]> cs).
    assert (Hlt : length cs - 1 < length cs).
    { rewrite <- lookup_last in Hl. by apply lookup_lt_Some in Hl. }
    repeat split.
    + rewrite (processKline_candles toFixed now st sym cs k Hcs).
      by rewrite (updateCandles_replace cs l (candleOf k) Hl Ht).
    + apply length_insert.
    + rewrite <- lookup_last, length_insert.
      by apply list_lookup_insert_eq.
    + by rewrite take_insert_ge.
Qed.

(** C1, an instance: two ticks of the same minute after an earlier one,
    and an update of the only buffered candle. *)
Lemma processKline_distinct_times_witness :
  (exists cs,
      candles (feed toFixedDec 0 (engineWith "btcusdt" []) "btcusdt"
                 [tick 1 10 true; tick 2 11 false; tick 2 12 true])
        !! "btcusdt" = Some cs
      /\ StronglySorted Z.lt (map time cs)
      /\ NoDup (map time cs))
  /\ (exists cs',
        candles (state_of (_processKline toFixedDec 0
                             (engineWith "btcusdt" [flat 1 10 1]) "btcusdt"
                             (Some (tick 1 12 false)))) !! "btcusdt"
        = Some cs'
        /\ cs' = <[length [flat 1 10 1] - 1 := candleOf (tick 1 12 false)]>
                   [flat 1 10 1]
        /\ length cs' = length [flat 1 10 1]
        /\ last cs' = Some (candleOf (tick 1 12 false))
        /\ take (length [flat 1 10 1] - 1) cs'
           = take (length [flat 1 10 1] - 1) [flat 1 10 1]).
Proof.
  split.
  - apply (proj1 (processKline_distinct_times toFixedDec 0 "btcusdt")).
    + reflexivity.
    + simpl. repeat constructor; lia.
  - apply (proj2 (processKline_distinct_times toFixedDec 0 "btcusdt")
             (engineWith "btcusdt" [flat 1 10 1]) [flat 1 10 1]
             (flat 1 10 1) (tick 1 12 false)); reflexivity.
Defined.

(** C1 as first stated fails: a closed tick carrying the timestamp of an
    entry that is no longer the last one is appended, and the buffer then
    holds that timestamp twice. *)
Lemma processKline_distinct_times_counterexample :
  exists cs,
    candles (feed toFixedDec 0 (engineWith "btcusdt" []) "btcusdt"
               [tick 1 10 true; tick 2 10 true; tick 1 10 true])
      !! "btcusdt" = Some cs
    /\ ~ NoDup (map time cs).
Proof.
  eexists. split; [vm_compute; reflexivity|].
  simpl. intros Hnd. apply NoDup_cons in Hnd as [Hnotin _].
  apply Hnotin. set_solver.
Qed.

(** C3.  A tick never takes a buffer of at most 500 candles above 500,
    neither one tick nor a sequence of them; and a candle appended to a
    buffer of exactly 500 removes the first entry and lands at the end,
    the other 499 keeping their order. *)
Theorem processKline_bounded_fifo toFixed now sym :
  (forall st cs k,
      candles st !! sym = Some cs ->
      length cs <= 500 ->
      exists cs',
        candles (state_of (_processKline toFixed now st sym (Some k))) !! sym
        = Some cs'
        /\ length cs' <= 500)
  /\ (forall st cs ticks,
      candles st !! sym = Some cs ->
      length cs <= 500 ->
      exists cs',
        candles (feed toFixed now st sym ticks) !! sym = Some cs'
        /\ length cs' <= 500)
  /\ (forall st cs l k,
      candles st !! sym = Some cs ->
      length cs = 500 ->
      last cs = Some l ->
      time l <> k_t k ->
      k_x k = true ->
      candles (state_of (_processKline toFixed now st sym (Some k))) !! sym
      = Some (drop 1 cs ++ [candleOf k])).
Proof.
  repeat split.
  - intros st cs k Hcs Hlen. exists (updateCandles cs (candleOf k)).
    split; [by apply processKline_candles|by apply updateCandles_length].
  - intros st cs ticks Hcs Hlen. by eapply feed_length.
  - intros st cs l k Hcs Hlen Hl Hne Hx.
    rewrite (processKline_candles toFixed now st sym cs k Hcs).
    rewrite updateCandles_push.
    + rewrite length_app, Hlen. simpl.
      destruct cs; [discriminate|]. simpl. by rewrite drop_0.
    + intros l' Hl'. simpl. congruence.
    + by left.
Qed.

(** C3, an instance: a closed candle pushed on a buffer of 500. *)
Lemma processKline_bounded_fifo_witness :
  candles (state_of (_processKline toFixedDec 0
                       (engineWith "btcusdt" (flats 500 0 10 1)) "btcusdt"
                       (Some (tick 500 11 true)))) !! "btcusdt"
  = Some (drop 1 (flats 500 0 10 1) ++ [candleOf (tick 500 11 true)]).
Proof.
  apply (proj2 (proj2 (processKline_bounded_fifo toFixedDec 0 "btcusdt"))
           _ _ (flat 499 10 1)).
  - reflexivity.
  - reflexivity.
  - reflexivity.
  - simpl. lia.
  - reflexivity.
Defined.

(* ===================================================================== *)
(** ** The deduplicator                                                   *)
(* ===================================================================== *)

Lemma action_eqb_eq a b : action_eqb a b = true <-> a = b.
Proof. destruct a, b; simpl; split; congruence. Qed.

Lemma action_eqb_neq a b : action_eqb a b = false <-> a <> b.
Proof. destruct a, b; simpl; split; congruence. Qed.

Lemma isNewSignal_spec st sym strat signal :
  _isNewSignal st sym strat signal = true
  <-> recorded st sym strat = None
      \/ exists last, recorded st sym strat = Some last
                      /\ action last <> action signal.
Proof.
  unfold _isNewSignal, recorded.
  destruct (lastSignals st !! sym ≫= _) as [last|]; split.
  - intros H. right. exists last. split; [done|].
    apply action_eqb_neq. by apply negb_true_iff.
  - intros [?|(l & [= <-] & Hne)]; [done|].
    apply negb_true_iff. by apply action_eqb_neq.
  - by left.
  - done.
Qed.

(** After the loop body has handled [signal] the table holds its action. *)
Lemma emitSignal_recorded now sym strat signal st st' :
  emitSignal now sym strat signal st = Done st' ->
  exists last, recorded st' sym strat = Some last
               /\ action last = action signal.
Proof.
  unfold emitSignal.
  destruct (_isNewSignal st sym strat signal) eqn:Hnew.
  - destruct (lastSignals st !! sym) as [m|]; [|done].
    intros [= <-]. exists signal. split; [|done].
    unfold recorded. simpl. rewrite lookup_insert_eq. simpl.
    apply lookup_insert_eq.
  - intros [= <-]. unfold _isNewSignal in Hnew.
    fold (recorded st sym strat) in Hnew.
    destruct (recorded st sym strat) as [last|]; [|done].
    exists last. split; [done|].
    apply action_eqb_eq. by apply negb_false_iff.
Qed.

Lemma emitSignal_new now sym strat signal st m :
  _isNewSignal st sym strat signal = true ->
  lastSignals st !! sym = Some m ->
  exists st',
    emitSignal now sym strat signal st = Done st'
    /\ sent st' = sent st
                  ++ deliveries st
                       (EvSignal (toUpperCase sym) strat signal now).
Proof.
  intros Hnew Hm. unfold emitSignal. rewrite Hnew, Hm.
  eexists. split; done.
Qed.

(** C2.  [_isNewSignal] answers true exactly when the pair has no recorded
    signal or the recorded action differs from the new one.  Hence, of two
    successive outputs with the same action the second is not new and the
    loop body leaves the engine as it was, whatever its strength and
    rationale; and an output with another action that follows them is new
    and is sent to the viewers. *)
Theorem isNewSignal_dedup :
  (forall st sym strat signal,
      _isNewSignal st sym strat signal = true
      <-> recorded st sym strat = None
          \/ exists last, recorded st sym strat = Some last
                          /\ action last <> action signal)
  /\ (forall now now' st st1 sym strat s1 s2,
      emitSignal now sym strat s1 st = Done st1 ->
      action s2 = action s1 ->
      _isNewSignal st1 sym strat s2 = false
      /\ emitSignal now' sym strat s2 st1 = Done st1)
  /\ (forall now now' now'' st st1 st2 sym strat s1 s2 s3,
      emitSignal now sym strat s1 st = Done st1 ->
      action s2 = action s1 ->
      emitSignal now' sym strat s2 st1 = Done st2 ->
      action s3 <> action s2 ->
      _isNewSignal st2 sym strat s3 = true
      /\ exists st3,
          emitSignal now'' sym strat s3 st2 = Done st3
          /\ recorded st3 sym strat = Some s3
          /\ sent st3
             = sent st2
               ++ deliveries st2 (EvSignal (toUpperCase sym) strat s3 now'')).
Proof.
  assert (Hsecond : forall now st st1 sym strat s1 s2,
             emitSignal now sym strat s1 st = Done st1 ->
             action s2 = action s1 ->
             _isNewSignal st1 sym strat s2 = false).
  { intros now st st1 sym strat s1 s2 He Hact.
    destruct (emitSignal_recorded _ _ _ _ _ _ He) as (last & Hr & Hl).
    unfold _isNewSignal. fold (recorded st1 sym strat). rewrite Hr.
    apply negb_false_iff, action_eqb_eq. congruence. }
  split; [exact isNewSignal_spec|]. split.
  - intros now now' st st1 sym strat s1 s2 He Hact.
    pose proof (Hsecond _ _ _ _ _ _ _ He Hact) as Hnot.
    split; [done|]. unfold emitSignal. by rewrite Hnot.
  - intros now now' now'' st st1 st2 sym strat s1 s2 s3 He1 Hact He2 Hne.
    destruct (emitSignal_recorded _ _ _ _ _ _ He2) as (last & Hr & Hl).
    assert (Hnew : _isNewSignal st2 sym strat s3 = true).
    { apply isNewSignal_spec. right. exists last. split; [done|congruence]. }
    split; [done|].
    assert (Hm : exists m, lastSignals st2 !! sym = Some m).
    { unfold recorded in Hr. destruct (lastSignals st2 !! sym); [eauto|done]. }
    destruct Hm as [m Hm].
    unfold emitSignal. rewrite Hnew, Hm. eexists. split; [done|].
    split; [|done].
    unfold recorded. simpl. rewrite lookup_insert_eq. simpl.
    apply lookup_insert_eq.
Qed.

(** C2, an instance: BUY, BUY again with another strength and rationale,
    then SELL. *)
Lemma isNewSignal_dedup_witness :
  _isNewSignal
    (state_of (emitSignal 1 "btcusdt" "rsi" sigBuyStrong
                 (engineWith "btcusdt" [])))
    "btcusdt" "rsi" sigBuyWeak = false
  /\ _isNewSignal
       (state_of (emitSignal 1 "btcusdt" "rsi" sigBuyStrong
                    (engineWith "btcusdt" [])))
       "btcusdt" "rsi" sigSell = true.
Proof.
  split.
  - apply (proj1 (proj2 isNewSignal_dedup) 1%Z 2%Z (engineWith "btcusdt" [])
             (state_of (emitSignal 1 "btcusdt" "rsi" sigBuyStrong
                          (engineWith "btcusdt" [])))
             "btcusdt" "rsi" sigBuyStrong sigBuyWeak).
    + vm_compute. reflexivity.
    + reflexivity.
  - apply (proj2 (proj2 isNewSignal_dedup) 1%Z 2%Z 3%Z
             (engineWith "btcusdt" [])
             (state_of (emitSignal 1 "btcusdt" "rsi" sigBuyStrong
                          (engineWith "btcusdt" [])))
             (state_of (emitSignal 1 "btcusdt" "rsi" sigBuyStrong
                          (engineWith "btcusdt" [])))
             "btcusdt" "rsi" sigBuyStrong sigBuyWeak sigSell).
    + vm_compute. reflexivity.
    + reflexivity.
    + vm_compute. reflexivity.
    + discriminate.
Defined.

(* ===================================================================== *)
(** ** Unsubscribing                                                      *)
(* ===================================================================== *)

(** On a key that is not an inherited name, and with the case mappings
    restricted to ASCII, [Plain.unsubscribe] returns what [unsubscribe]
    computes. *)
Lemma unsubscribe_plain (st : Engine) (symbol : string) :
  inherited (replaceSlash (toLowerCase symbol)) = false ->
  Plain.unsubscribe toLowerCase toUpperCase st symbol
  = Done (unsubscribe st symbol).
Proof.
  intros Hkey. unfold Plain.unsubscribe, unsubscribe.
  destruct (binanceSockets st !! _); [done|]. by rewrite Hkey.
Qed.

Section Unsubscribing.

Variable lowerCase upperCase : string -> string.


End Unsubscribing.



(* ===================================================================== *)
(** ** When a strategy answers                                            *)
(* ===================================================================== *)

(** Case analysis on every [if] and [match] left in the goal. *)
Ltac branches :=
  repeat match goal with
  | |- context [if ?b then _ else _] => destruct b eqn:?
  | |- context [match ?x with Some _ => _ | None => _ end] => destruct x eqn:?
  | |- context [let '(_, _) := ?p in _] => destruct p eqn:?
  end.

(** Split the conjunctions of tests that guard a branch. *)
Ltac guards :=
  repeat match goal with
  | H : _ && _ = true |- _ => apply andb_true_iff in H; destruct H
  end.

Lemma sma_length values period :
  length (_sma values period)
  = if length values <? period then 0 else length values - (period - 1).
Proof.
  unfold _sma. destruct (length values <? period); [done|].
  by rewrite length_map, length_seq.
Qed.

Lemma slice_from_neg {A} (l : list A) (k : nat) :
  0 < k -> slice_from l (- Z.of_nat k) = drop (length l - k) l.
Proof.
  intros Hk. unfold slice_from, rel_index.
  destruct (- Z.of_nat k <? 0)%Z eqn:E; [|apply Z.ltb_ge in E; lia].
  f_equal. lia.
Qed.

Lemma slice_from_neg_length {A} (l : list A) (k : nat) :
  0 < k -> k <= length l -> length (slice_from l (- Z.of_nat k)) = k.
Proof. intros Hk Hl. rewrite slice_from_neg, length_drop by done. lia. Qed.

Lemma slice_neg {A} (l : list A) (k j : nat) :
  j < k -> k <= length l ->
  slice l (- Z.of_nat k) (- Z.of_nat j - 1)
  = take (k - j - 1) (drop (length l - k) l).
Proof.
  intros Hj Hk. unfold slice, rel_index.
  destruct (- Z.of_nat k <? 0)%Z eqn:E1; [|apply Z.ltb_ge in E1; lia].
  destruct (- Z.of_nat j - 1 <? 0)%Z eqn:E2; [|apply Z.ltb_ge in E2; lia].
  f_equal; [lia|]. f_equal. lia.
Qed.

Section Answers.

Variable toFixed : num -> nat -> string.

Lemma smaCrossover_None cs :
  _smaCrossover toFixed cs = None <-> length cs < 31.
Proof.
  unfold _smaCrossover. rewrite !sma_length, length_map.
  destruct (Nat.ltb_spec (length cs) 10);
    destruct (Nat.ltb_spec (length cs) 30); try lia.
  - simpl. split; [lia|done].
  - rewrite orb_true_r. split; [lia|done].
  - destruct (Nat.ltb_spec (length cs - (10 - 1)) 2); [lia|].
    destruct (Nat.ltb_spec (length cs - (30 - 1)) 2).
    + simpl. split; [lia|done].
    + simpl. split; [|lia]. branches; discriminate.
Qed.

Lemma rsi_None values period :
  _rsi values period = None <-> length values < period + 1.
Proof.
  unfold _rsi.
  destruct (length values <? period + 1) eqn:E.
  - apply Nat.ltb_lt in E. done.
  - apply Nat.ltb_ge in E. split; [|lia]. branches; discriminate.
Qed.

Lemma rsiStrategy_None cs :
  _rsiStrategy toFixed cs = None <-> length cs < 15.
Proof.
  unfold _rsiStrategy.
  destruct (_rsi (map close cs) 14) as [rsi|] eqn:E.
  - assert (~ length (map close cs) < 14 + 1) as Hlen.
    { intros H. apply rsi_None in H. congruence. }
    rewrite length_map in Hlen. split; [|lia]. branches; discriminate.
  - apply rsi_None in E. rewrite length_map in E. split; [lia|done].
Qed.

Lemma breakoutStrategy_None cs :
  _breakoutStrategy toFixed cs = None <-> length cs < 21.
Proof.
  unfold _breakoutStrategy.
  destruct (length cs <? 21) eqn:E.
  - apply Nat.ltb_lt in E. done.
  - apply Nat.ltb_ge in E. split; [|lia].
    destruct (lookup_lt_is_Some_2 cs (length cs - 1)) as [c ->]; [lia|].
    branches; discriminate.
Qed.

Lemma hftMomentum_None cs :
  _hftMomentum toFixed cs = None <-> length cs < 30.
Proof.
  unfold _hftMomentum.
  destruct (length cs <? 30) eqn:E.
  - apply Nat.ltb_lt in E. done.
  - apply Nat.ltb_ge in E. split; [|lia].
    pose proof (slice_from_neg_length cs 30 ltac:(lia) E) as Hlen.
    change (- Z.of_nat 30)%Z with (-30)%Z in Hlen.
    destruct (lookup_lt_is_Some_2 (slice_from cs (-30))
                (length (slice_from cs (-30)) - 1)) as [c ->]; [lia|].
    branches; discriminate.
Qed.

Lemma linearRegression_None cs :
  _linearRegression toFixed cs = None <-> length cs < 50.
Proof.
  unfold _linearRegression.
  destruct (length cs <? 50) eqn:E.
  - apply Nat.ltb_lt in E. done.
  - apply Nat.ltb_ge in E. split; [|lia]. branches; discriminate.
Qed.

End Answers.

(** C4.  Below its bar count a strategy returns [null]: fewer than 30
    candles for [sma_crossover], 15 for [rsi], 21 for [breakout], 30 for
    [hft_momentum], 50 for [linear_regression]. *)
Theorem insufficient_history_no_signal toFixed (sym : string)
    (cs : list Candle) :
  (length cs < 30 -> _runStrategy toFixed "sma_crossover" sym cs = None)
  /\ (length cs < 15 -> _runStrategy toFixed "rsi" sym cs = None)
  /\ (length cs < 21 -> _runStrategy toFixed "breakout" sym cs = None)
  /\ (length cs < 30 -> _runStrategy toFixed "hft_momentum" sym cs = None)
  /\ (length cs < 50 ->
      _runStrategy toFixed "linear_regression" sym cs = None).
Proof.
  repeat split; intros Hlen.
  - apply smaCrossover_None. lia.
  - by apply rsiStrategy_None.
  - by apply breakoutStrategy_None.
  - by apply hftMomentum_None.
  - by apply linearRegression_None.
Qed.

(** C4, an instance: 14 candles are too few for every strategy. *)
Lemma insufficient_history_no_signal_witness :
  _runStrategy toFixedDec "sma_crossover" "btcusdt" (flats 14 0 10 1) = None
  /\ _runStrategy toFixedDec "rsi" "btcusdt" (flats 14 0 10 1) = None
  /\ _runStrategy toFixedDec "breakout" "btcusdt" (flats 14 0 10 1) = None
  /\ _runStrategy toFixedDec "hft_momentum" "btcusdt" (flats 14 0 10 1)
     = None
  /\ _runStrategy toFixedDec "linear_regression" "btcusdt" (flats 14 0 10 1)
     = None.
Proof.
  destruct (insufficient_history_no_signal toFixedDec "btcusdt"
              (flats 14 0 10 1)) as (H1 & H2 & H3 & H4 & H5).
  refine (conj (H1 _) (conj (H2 _) (conj (H3 _) (conj (H4 _) (H5 _)))));
    simpl; lia.
Defined.

(** C5 (as amended).  A strategy returns a signal once the history has
    its bar count, which is 31 for [sma_crossover] (the evaluator needs two
    points of the 30-bar average), 15 for [rsi], 21 for [breakout], 30 for
    [hft_momentum] and 50 for [linear_regression]. *)
Theorem sufficient_history_signal toFixed (sym : string) (cs : list Candle) :
  (31 <= length cs ->
   is_Some (_runStrategy toFixed "sma_crossover" sym cs))
  /\ (15 <= length cs -> is_Some (_runStrategy toFixed "rsi" sym cs))
  /\ (21 <= length cs -> is_Some (_runStrategy toFixed "breakout" sym cs))
  /\ (30 <= length cs ->
      is_Some (_runStrategy toFixed "hft_momentum" sym cs))
  /\ (50 <= length cs ->
      is_Some (_runStrategy toFixed "linear_regression" sym cs)).
Proof.
  repeat split; intros Hlen; apply not_eq_None_Some; intros Hnone.
  - apply smaCrossover_None in Hnone. lia.
  - apply rsiStrategy_None in Hnone. lia.
  - apply breakoutStrategy_None in Hnone. lia.
  - apply hftMomentum_None in Hnone. lia.
  - apply linearRegression_None in Hnone. lia.
Qed.

(** C5, an instance: 50 candles are enough for every strategy. *)
Lemma sufficient_history_signal_witness :
  is_Some (_runStrategy toFixedDec "sma_crossover" "btcusdt"
             (flats 50 0 10 1))
  /\ is_Some (_runStrategy toFixedDec "rsi" "btcusdt" (flats 50 0 10 1))
  /\ is_Some (_runStrategy toFixedDec "breakout" "btcusdt" (flats 50 0 10 1))
  /\ is_Some (_runStrategy toFixedDec "hft_momentum" "btcusdt"
                (flats 50 0 10 1))
  /\ is_Some (_runStrategy toFixedDec "linear_regression" "btcusdt"
                (flats 50 0 10 1)).
Proof.
  destruct (sufficient_history_signal toFixedDec "btcusdt"
              (flats 50 0 10 1)) as (H1 & H2 & H3 & H4 & H5).
  refine (conj (H1 _) (conj (H2 _) (conj (H3 _) (conj (H4 _) (H5 _)))));
    simpl; lia.
Defined.

(** C5 as first stated fails for [sma_crossover]: with exactly 30 candles
    the 30-bar average has a single point and the evaluator returns
    [null]. *)
Lemma sufficient_history_signal_counterexample :
  30 <= length (flats 30 0 10 1)
  /\ _runStrategy toFixedDec "sma_crossover" "btcusdt" (flats 30 0 10 1)
     = None.
Proof. split; [simpl; lia | vm_compute; reflexivity]. Qed.

(* ===================================================================== *)
(** ** Facts about numbers                                                *)
(* ===================================================================== *)

Module NumFacts.

Lemma Qltb_lt x y : Num.Qltb x y = true <-> (x < y)%Q.
Proof.
  unfold Num.Qltb. rewrite negb_true_iff.
  split.
  - intros H. apply Qnot_le_lt. intros Hle.
    apply Qle_bool_iff in Hle. congruence.
  - intros H. destruct (Qle_bool y x) eqn:E; [|done].
    apply Qle_bool_iff in E. lra.
Qed.

Lemma Qltb_ge x y : Num.Qltb x y = false <-> (y <= x)%Q.
Proof.
  unfold Num.Qltb. rewrite negb_false_iff. apply Qle_bool_iff.
Qed.

Lemma Qleb_gt x y : Qle_bool x y = false <-> (y < x)%Q.
Proof.
  split.
  - intros H. apply Qnot_le_lt. intros Hle.
    apply Qle_bool_iff in Hle. congruence.
  - intros H. destruct (Qle_bool x y) eqn:E; [|done].
    apply Qle_bool_iff in E. lra.
Qed.

Lemma Qeqb_neq x y : Qeq_bool x y = false <-> ~ (x == y)%Q.
Proof.
  split.
  - intros H Heq. apply Qeq_bool_iff in Heq. congruence.
  - intros H. destruct (Qeq_bool x y) eqn:E; [|done].
    apply Qeq_bool_iff in E. done.
Qed.

(** Turn the boolean tests on rationals into propositions. *)
Ltac qprop :=
  repeat match goal with
  | H : Num.Qltb _ _ = true |- _ => apply Qltb_lt in H
  | H : Num.Qltb _ _ = false |- _ => apply Qltb_ge in H
  | H : Qle_bool _ _ = true |- _ => apply Qle_bool_iff in H
  | H : Qle_bool _ _ = false |- _ => apply Qleb_gt in H
  | H : Qeq_bool _ _ = true |- _ => apply Qeq_bool_iff in H
  | H : Qeq_bool _ _ = false |- _ => apply Qeqb_neq in H
  | |- Num.Qltb _ _ = true => apply Qltb_lt
  | |- Num.Qltb _ _ = false => apply Qltb_ge
  | |- Qle_bool _ _ = true => apply Qle_bool_iff
  | |- Qle_bool _ _ = false => apply Qleb_gt
  | |- Qeq_bool _ _ = true => apply Qeq_bool_iff
  | |- Qeq_bool _ _ = false => apply Qeqb_neq
  end.

Lemma leb_trans a b c :
  Num.leb a b = true -> Num.leb b c = true -> Num.leb a c = true.
Proof. destruct a, b, c; simpl; try done. intros; qprop; lra. Qed.

Lemma leb_refl a : a <> NaN -> Num.leb a a = true.
Proof. destruct a; simpl; try done. intros _. qprop. lra. Qed.

Lemma eqb_not_ltb a b :
  Num.eqb a b = true -> Num.ltb b a = false /\ Num.ltb a b = false.
Proof. destruct a, b; simpl; try done. intros; split; qprop; lra. Qed.

Lemma leb_not_ltb a b : Num.leb a b = true -> Num.ltb b a = false.
Proof. destruct a, b; simpl; try done. intros; qprop; lra. Qed.

Lemma ltb_leb a b : Num.ltb a b = true -> Num.leb a b = true.
Proof. destruct a, b; simpl; try done. intros; qprop; lra. Qed.

Lemma pos_finite a : Num.pos a -> Num.finite a.
Proof. intros (q & -> & _). by exists q. Qed.

Lemma pos_nonneg a : Num.pos a -> Num.nonneg a.
Proof. intros (q & -> & Hq). unfold Num.nonneg. simpl. qprop. lra. Qed.

Lemma nonneg_add a b : Num.nonneg a -> Num.nonneg b -> Num.nonneg (a + b)%J.
Proof.
  unfold Num.nonneg. destruct a, b; simpl; try done. intros; qprop; lra.
Qed.

Lemma nonneg_mul a b : Num.nonneg a -> Num.nonneg b ->
  (a * b)%J = NaN \/ Num.nonneg (a * b)%J.
Proof.
  unfold Num.nonneg, Num.mul, Num.inf_times.
  destruct a as [x| | |], b as [y| | |]; simpl; try done; intros Ha Hb;
    qprop.
  - right. qprop. nra.
  - destruct (x ?= 0)%Q eqn:E; auto.
    apply Qlt_alt in E. lra.
  - destruct (y ?= 0)%Q eqn:E; auto.
    apply Qlt_alt in E. lra.
  - auto.
Qed.

(** A non-negative number times a positive constant. *)
Lemma nonneg_scale a k :
  Num.nonneg a -> (0 < k)%Q -> Num.nonneg (a * Fin k)%J.
Proof.
  unfold Num.nonneg, Num.mul, Num.inf_times.
  destruct a as [x| | |]; simpl; try done; intros Ha Hk; qprop.
  - nra.
  - apply Qgt_alt in Hk. by rewrite Hk.
Qed.

Lemma nonneg_abs a : a <> NaN -> Num.nonneg (Num.abs a).
Proof.
  unfold Num.nonneg. destruct a; simpl; try done.
  intros _. qprop. apply Qabs_nonneg.
Qed.

Lemma ltb_not_NaN_l a b : Num.ltb a b = true -> a <> NaN.
Proof. destruct a; simpl; done. Qed.

Lemma ltb_not_NaN_r a b : Num.ltb a b = true -> b <> NaN.
Proof. destruct a, b; simpl; done. Qed.

Lemma nonneg_of_gt a k : Num.ltb (Fin k) a = true -> (0 <= k)%Q ->
  Num.nonneg a.
Proof.
  unfold Num.nonneg. destruct a; simpl; try done. intros; qprop; lra.
Qed.

(** [Math.min(a, cap)] of a non-negative [a] lies between 0 and [cap]. *)
Lemma min2_range a cap :
  Num.nonneg a -> (0 <= cap)%Q ->
  Num.leb (Fin 0) (Num.min2 a (Fin cap)) = true
  /\ Num.leb (Num.min2 a (Fin cap)) (Fin cap) = true.
Proof.
  unfold Num.nonneg, Num.min2.
  destruct a as [x| | |]; simpl; try done; intros Ha Hc.
  - destruct (Qle_bool x cap) eqn:E; simpl; split; qprop; lra.
  - split; qprop; lra.
Qed.

End NumFacts.

(* ===================================================================== *)
(** ** The trend-cross rule                                               *)
(* ===================================================================== *)

Lemma slice_window {A} (values : list A) (i p : nat) :
  1 <= p -> p <= i + 1 -> i < length values ->
  slice values (Z.of_nat i - Z.of_nat p + 1) (Z.of_nat i + 1)
  = take p (drop (i + 1 - p) values).
Proof.
  intros Hp Hi Hlen. unfold slice, rel_index.
  destruct (Z.ltb_spec (Z.of_nat i - Z.of_nat p + 1) 0); [lia|].
  destruct (Z.ltb_spec (Z.of_nat i + 1) 0); [lia|].
  f_equal; [lia|]. f_equal. lia.
Qed.

(** The entries of [_sma] are the window means. *)
Lemma sma_idx values p k :
  1 <= p -> p <= length values -> k < length values - (p - 1) ->
  Num.idx (_sma values p) k = windowMean values p (k + (p - 1)).
Proof.
  intros Hp Hlen Hk. unfold _sma, Num.idx, windowMean.
  destruct (Nat.ltb_spec (length values) p); [lia|].
  rewrite list_lookup_fmap, lookup_seq_lt by done. simpl.
  rewrite slice_window by lia.
  by replace (p - 1 + k + 1 - p) with (k + (p - 1) + 1 - p) by lia.
Qed.

(** The four averages read by [_smaCrossover]. *)
Lemma smaCrossover_points cs :
  31 <= length cs ->
  let closes := map close cs in
  let sma10 := _sma closes 10 in
  let sma30 := _sma closes 30 in
  Num.idx sma10 (length sma10 - 1) = windowMean closes 10 (length cs - 1)
  /\ Num.idx sma10 (length sma10 - 2) = windowMean closes 10 (length cs - 2)
  /\ Num.idx sma30 (length sma30 - 1) = windowMean closes 30 (length cs - 1)
  /\ Num.idx sma30 (length sma30 - 2) = windowMean closes 30 (length cs - 2).
Proof.
  intros Hlen closes sma10 sma30. subst sma10 sma30.
  assert (Hc : length closes = length cs) by apply length_map.
  rewrite !sma_length, Hc.
  destruct (Nat.ltb_spec (length cs) 10); [lia|].
  destruct (Nat.ltb_spec (length cs) 30); [lia|].
  repeat split; rewrite sma_idx by lia; f_equal; lia.
Qed.








(** Rounding decides whether the averages have crossed.  Thirty closes at
    0.7 followed by one at 0.701: the sum of ten of them divided by 10 is
    0.7000000000000001 and the sum of thirty divided by 30 is
    0.6999999999999996, so the 10-bar average is already above the 30-bar
    average before the last bar, and the answer is HOLD. *)
Lemma smaCrossover_rounding :
  (F64.windowMean
     (map F64.close (F64.flats 30 0 0.7 1 ++ [F64.flat 30 0.701 1])) 10 29
   <=? F64.windowMean
         (map F64.close (F64.flats 30 0 0.7 1 ++ [F64.flat 30 0.701 1])) 30 29
  )%float = false
  /\ F64.action
       <$> F64._smaCrossover F64.toFixedDec
             (F64.flats 30 0 0.7 1 ++ [F64.flat 30 0.701 1])
     = Some HOLD.
Proof. split; vm_compute; reflexivity. Qed.

(* ===================================================================== *)
(** ** Extremes of a window                                               *)
(* ===================================================================== *)

Section Extremes.

Import NumFacts.

Lemma max2_spec a b :
  a <> NaN -> b <> NaN ->
  Num.max2 a b <> NaN
  /\ Num.leb a (Num.max2 a b) = true
  /\ Num.leb b (Num.max2 a b) = true.
Proof.
  destruct a as [x| | |], b as [y| | |]; simpl; try done; intros _ _.
  - destruct (Qle_bool x y) eqn:E; repeat split; try done; simpl; qprop; lra.
  - repeat split; try done. simpl. qprop. lra.
  - repeat split; try done. simpl. qprop. lra.
Qed.

Lemma min2_spec a b :
  a <> NaN -> b <> NaN ->
  Num.min2 a b <> NaN
  /\ Num.leb (Num.min2 a b) a = true
  /\ Num.leb (Num.min2 a b) b = true.
Proof.
  destruct a as [x| | |], b as [y| | |]; simpl; try done; intros _ _.
  - destruct (Qle_bool x y) eqn:E; repeat split; try done; simpl; qprop; lra.
  - repeat split; try done. simpl. qprop. lra.
  - repeat split; try done. simpl. qprop. lra.
Qed.

Lemma max2_choice a b : Num.max2 a b = a \/ Num.max2 a b = b.
Proof.
  destruct a, b; simpl; auto.
  destruct (Qle_bool _ _); auto.
Qed.

Lemma min2_choice a b : Num.min2 a b = a \/ Num.min2 a b = b.
Proof.
  destruct a, b; simpl; auto.
  destruct (Qle_bool _ _); auto.
Qed.

Lemma foldl_max2_spec l : forall acc,
  acc <> NaN -> Forall (fun x => x <> NaN) l ->
  foldl Num.max2 acc l <> NaN
  /\ Num.leb acc (foldl Num.max2 acc l) = true
  /\ Forall (fun x => Num.leb x (foldl Num.max2 acc l) = true) l.
Proof.
  induction l as [|a l IH]; intros acc Hacc Hl; simpl.
  - split; [done|]. split; [by apply leb_refl|constructor].
  - apply Forall_cons in Hl as [Ha Hl].
    destruct (max2_spec acc a Hacc Ha) as (Hn & H1 & H2).
    destruct (IH (Num.max2 acc a) Hn Hl) as (Hn' & H1' & H2').
    split; [done|]. split; [by eapply leb_trans|].
    constructor; [by eapply leb_trans|done].
Qed.

Lemma foldl_min2_spec l : forall acc,
  acc <> NaN -> Forall (fun x => x <> NaN) l ->
  foldl Num.min2 acc l <> NaN
  /\ Num.leb (foldl Num.min2 acc l) acc = true
  /\ Forall (fun x => Num.leb (foldl Num.min2 acc l) x = true) l.
Proof.
  induction l as [|a l IH]; intros acc Hacc Hl; simpl.
  - split; [done|]. split; [by apply leb_refl|constructor].
  - apply Forall_cons in Hl as [Ha Hl].
    destruct (min2_spec acc a Hacc Ha) as (Hn & H1 & H2).
    destruct (IH (Num.min2 acc a) Hn Hl) as (Hn' & H1' & H2').
    split; [done|]. split; [by eapply leb_trans|].
    constructor; [by eapply leb_trans|done].
Qed.

Lemma foldl_max2_choice l : forall acc,
  foldl Num.max2 acc l = acc \/ foldl Num.max2 acc l ∈ l.
Proof.
  induction l as [|a l IH]; intros acc; simpl; [by left|].
  destruct (IH (Num.max2 acc a)) as [->|Hin]; [|right; set_solver].
  destruct (max2_choice acc a) as [->| ->]; [by left|right; set_solver].
Qed.

Lemma foldl_min2_choice l : forall acc,
  foldl Num.min2 acc l = acc \/ foldl Num.min2 acc l ∈ l.
Proof.
  induction l as [|a l IH]; intros acc; simpl; [by left|].
  destruct (IH (Num.min2 acc a)) as [->|Hin]; [|right; set_solver].
  destruct (min2_choice acc a) as [->| ->]; [by left|right; set_solver].
Qed.

Lemma ordered_not_NaN c : ordered c -> low c <> NaN /\ high c <> NaN.
Proof.
  unfold ordered. destruct (low c), (high c); simpl; done.
Qed.

(** Over a window of candles with low <= high that is not empty, the
    lowest low is at most the highest high. *)
Lemma minl_le_maxl (w : list Candle) :
  w <> [] -> Forall ordered w ->
  Num.leb (Num.minl (map low w)) (Num.maxl (map high w)) = true.
Proof.
  intros Hne Hord. destruct w as [|c w]; [done|].
  assert (Hlo : Forall (fun x => x <> NaN) (map low (c :: w))).
  { apply Forall_fmap. eapply Forall_impl; [exact Hord|].
    intros x Hx. by apply ordered_not_NaN in Hx as [? ?]. }
  assert (Hhi : Forall (fun x => x <> NaN) (map high (c :: w))).
  { apply Forall_fmap. eapply Forall_impl; [exact Hord|].
    intros x Hx. by apply ordered_not_NaN in Hx as [? ?]. }
  destruct (foldl_min2_spec (map low (c :: w)) PInf) as (_ & _ & Hmin);
    [done|done|].
  destruct (foldl_max2_spec (map high (c :: w)) NInf) as (_ & _ & Hmax);
    [done|done|].
  apply Forall_cons in Hmin as [Hmin _]. apply Forall_cons in Hmax as [Hmax _].
  apply Forall_cons in Hord as [Hc _].
  eapply leb_trans; [exact Hmin|]. eapply leb_trans; [exact Hc|exact Hmax].
Qed.

(** The extremes of a non-empty window of finite values are finite. *)
Lemma maxl_finite (l : list num) :
  l <> [] -> Forall Num.finite l -> Num.finite (Num.maxl l).
Proof.
  intros Hne Hfin. unfold Num.maxl.
  destruct (foldl_max2_choice l NInf) as [Heq|Hin].
  - destruct l as [|a l]; [done|].
    destruct (foldl_max2_spec (a :: l) NInf) as (_ & _ & Hall); [done| |].
    { eapply Forall_impl; [exact Hfin|]. by intros x [q ->]. }
    apply Forall_cons in Hall as [Ha _].
    apply Forall_cons in Hfin as [[q ->] _].
    rewrite Heq in Ha. done.
  - rewrite Forall_forall in Hfin. by apply Hfin.
Qed.

Lemma minl_finite (l : list num) :
  l <> [] -> Forall Num.finite l -> Num.finite (Num.minl l).
Proof.
  intros Hne Hfin. unfold Num.minl.
  destruct (foldl_min2_choice l PInf) as [Heq|Hin].
  - destruct l as [|a l]; [done|].
    destruct (foldl_min2_spec (a :: l) PInf) as (_ & _ & Hall); [done| |].
    { eapply Forall_impl; [exact Hfin|]. by intros x [q ->]. }
    apply Forall_cons in Hall as [Ha _].
    apply Forall_cons in Hfin as [[q ->] _].
    rewrite Heq in Ha. done.
  - rewrite Forall_forall in Hfin. by apply Hfin.
Qed.

End Extremes.

(* ===================================================================== *)
(** ** The breakout boundary                                              *)
(* ===================================================================== *)

Lemma breakout_window (cs : list Candle) :
  21 <= length cs -> slice cs (-21) (-1) = prior20 cs.
Proof.
  intros Hlen. apply (slice_neg cs 21 0); lia.
Qed.

Lemma prior20_length (cs : list Candle) :
  21 <= length cs -> length (prior20 cs) = 20.
Proof.
  intros Hlen. unfold prior20. rewrite length_take, length_drop. lia.
Qed.

(** [_breakoutStrategy] in terms of the three tests. *)
Lemma breakout_action toFixed (cs : list Candle) (current : Candle) :
  21 <= length cs -> last cs = Some current ->
  action <$> _breakoutStrategy toFixed cs
  = Some (if (close current >? Num.maxl (map high (prior20 cs)))%J then BUY
          else if (close current <? Num.minl (map low (prior20 cs)))%J
               then SELL
               else HOLD).
Proof.
  intros Hlen Hlast. unfold _breakoutStrategy.
  destruct (Nat.ltb_spec (length cs) 21); [lia|].
  rewrite lookup_last, Hlast, breakout_window by done.
  by branches.
Qed.

(** C7 (as amended).  With at least 21 candles and the latest close equal
    to the highest high of the 20 candles before it, [_breakoutStrategy]
    never returns BUY; it returns HOLD provided the close is not below the
    lowest low of those 20 candles, which is the case whenever each of
    them has its low at or below its high (otherwise it returns SELL).
    In general BUY is returned exactly when the close is strictly above
    the prior high, and SELL only when it is strictly below the prior
    low. *)
Theorem breakout_boundary toFixed (cs : list Candle) (current : Candle) :
  21 <= length cs ->
  last cs = Some current ->
  ((close current =? Num.maxl (map high (prior20 cs)))%J = true ->
     action <$> _breakoutStrategy toFixed cs <> Some BUY
     /\ ((close current <? Num.minl (map low (prior20 cs)))%J = false ->
         action <$> _breakoutStrategy toFixed cs = Some HOLD)
     /\ ((close current <? Num.minl (map low (prior20 cs)))%J = true ->
         action <$> _breakoutStrategy toFixed cs = Some SELL)
     /\ (Forall ordered (prior20 cs) ->
         action <$> _breakoutStrategy toFixed cs = Some HOLD))
  /\ (action <$> _breakoutStrategy toFixed cs = Some BUY
      <-> (close current >? Num.maxl (map high (prior20 cs)))%J = true)
  /\ (action <$> _breakoutStrategy toFixed cs = Some SELL ->
      (close current <? Num.minl (map low (prior20 cs)))%J = true).
Proof.
  intros Hlen Hlast.
  rewrite (breakout_action toFixed cs current Hlen Hlast).
  split; [|split].
  - intros Heq.
    destruct (NumFacts.eqb_not_ltb _ _ Heq) as [Hno _]. rewrite Hno.
    split; [|split; [|split]].
    + branches; discriminate.
    + by intros ->.
    + by intros ->.
    + intros Hord.
      assert (Hle : Num.leb (Num.minl (map low (prior20 cs)))
                      (Num.maxl (map high (prior20 cs))) = true).
      { apply minl_le_maxl; [|done].
        intros Hnil. pose proof (prior20_length cs Hlen) as H20.
        by rewrite Hnil in H20. }
      assert (Hge : Num.leb (Num.minl (map low (prior20 cs))) (close current)
                    = true).
      { destruct (close current), (Num.maxl (map high (prior20 cs))),
          (Num.minl (map low (prior20 cs)));
          simpl in *; try done.
        NumFacts.qprop. lra. }
      by rewrite (NumFacts.leb_not_ltb _ _ Hge).
  - branches; split; done.
  - branches; done.
Qed.

(** C7, an instance: twenty flat bars, then a close on their high. *)
Lemma breakout_boundary_witness :
  action <$> _breakoutStrategy toFixedDec
               (flats 20 0 10 1 ++ [flat 20 10 3])
  = Some HOLD.
Proof.
  apply (proj1 (proj2 (proj1
           (breakout_boundary toFixedDec (flats 20 0 10 1 ++ [flat 20 10 3])
              (flat 20 10 3) ltac:(simpl; lia) eq_refl)
           ltac:(vm_compute; reflexivity)))).
  vm_compute. reflexivity.
Defined.

(** C7 as first stated fails: when the 20 earlier candles carry highs
    below their lows, a close equal to the highest high lies under the
    lowest low, and the evaluator returns SELL, not HOLD. *)
Lemma breakout_boundary_counterexample :
  21 <= length (invertedHistory 1)
  /\ (Fin 1 =? Num.maxl (map high (prior20 (invertedHistory 1))))%J = true
  /\ last (invertedHistory 1) = Some (inverted 1 1)
  /\ action <$> _breakoutStrategy toFixedDec (invertedHistory 1)
     = Some SELL.
Proof.
  split; [simpl; lia|]. repeat split; vm_compute; reflexivity.
Qed.

(* ===================================================================== *)
(** ** The range of the strength                                          *)
(* ===================================================================== *)

Section Strength.

Import NumFacts.

Variable toFixed : num -> nat -> string.

Lemma in_range_const (k : Q) :
  (0 <= k)%Q -> (k <= 100)%Q -> in_range (Fin k).
Proof. intros H0 H1. split; simpl; qprop; lra. Qed.

Lemma min2_in_range a (cap : Q) :
  Num.nonneg a -> (0 <= cap)%Q -> (cap <= 100)%Q ->
  in_range (Num.min2 a (Fin cap)).
Proof.
  intros Ha H0 H1. destruct (min2_range a cap Ha H0) as [Hlo Hhi].
  split; [done|]. eapply leb_trans; [exact Hhi|]. simpl. qprop. lra.
Qed.

(** [(a - b) / c] for finite [a > b] and a finite [c >= 0]: a positive
    number, or [Infinity] when [c] is zero. *)
Lemma quotient_nonneg a b c :
  Num.finite a -> Num.finite b -> Num.finite c ->
  Num.ltb b a = true -> Num.nonneg c ->
  Num.nonneg ((a - b) / c)%J.
Proof.
  intros [x ->] [y ->] [z ->] Hlt Hc.
  unfold Num.nonneg in *. simpl in *. qprop.
  destruct (Qeq_bool z 0) eqn:Ez.
  - unfold Num.inf_times.
    assert (Hgt : (0 < x + - y)%Q) by lra.
    apply Qgt_alt in Hgt. by rewrite Hgt.
  - simpl. qprop.
    assert (Hz : (0 < z)%Q) by lra.
    apply Qle_shift_div_l; [done|]. lra.
Qed.

Lemma sub_nonneg a b :
  Num.finite a -> Num.finite b -> Num.leb b a = true ->
  Num.finite (a - b)%J /\ Num.nonneg (a - b)%J.
Proof.
  intros [x ->] [y ->] Hle. simpl in *. split; [by eexists|].
  unfold Num.nonneg. simpl. qprop. lra.
Qed.

(** Sums and averages of positive numbers. *)
Lemma foldl_add_pos (l : list num) : forall q,
  Forall Num.pos l ->
  exists r, foldl Num.add (Fin q) l = Fin r
            /\ (q <= r)%Q /\ (l <> [] -> (q < r)%Q).
Proof.
  induction l as [|a l IH]; intros q Hl; simpl.
  - exists q. split; [done|]. split; [lra|done].
  - apply Forall_cons in Hl as [(x & -> & Hx) Hl]. simpl.
    destruct (IH (q + x)%Q Hl) as (r & -> & Hle & _).
    exists r. split; [done|]. split; [lra|]. intros _. lra.
Qed.

Lemma total_pos (l : list num) :
  l <> [] -> Forall Num.pos l -> Num.pos (Num.total l).
Proof.
  intros Hne Hl. destruct (foldl_add_pos l 0 Hl) as (r & Hr & _ & Hlt).
  exists r. split; [done|]. by apply Hlt.
Qed.

Lemma of_nat_pos (p : nat) : 1 <= p -> (0 < inject_Z (Z.of_nat p))%Q.
Proof. intros Hp. unfold Qlt. simpl. lia. Qed.

Lemma div_pos a (p : nat) :
  Num.pos a -> 1 <= p -> Num.pos (a / Num.of_nat p)%J.
Proof.
  intros (x & -> & Hx) Hp. pose proof (of_nat_pos p Hp) as Hpp.
  unfold Num.of_nat. simpl.
  destruct (Qeq_bool (inject_Z (Z.of_nat p)) 0) eqn:E; qprop; [lra|].
  eexists. split; [done|]. by apply Qlt_shift_div_l; [|lra].
Qed.

Lemma windowMean_pos values p i :
  1 <= p -> p <= i + 1 -> i < length values ->
  Forall Num.pos values -> Num.pos (windowMean values p i).
Proof.
  intros Hp Hi Hlen Hpos. unfold windowMean.
  apply div_pos; [|done]. apply total_pos.
  - intros Hnil. apply (f_equal length) in Hnil.
    rewrite length_take, length_drop in Hnil. simpl in Hnil. lia.
  - by apply Forall_take, Forall_drop.
Qed.

Lemma smaCrossover_strength cs s :
  Forall (fun c => Num.pos (close c)) cs ->
  _smaCrossover toFixed cs = Some s -> in_range (strength s).
Proof.
  intros Hpos Hs.
  assert (Hlen : 31 <= length cs).
  { destruct (Nat.lt_ge_cases (length cs) 31) as [Hlt|]; [|done].
    apply (smaCrossover_None toFixed) in Hlt. congruence. }
  assert (Hcl : Forall Num.pos (map close cs)) by by apply Forall_fmap.
  assert (Hc : length (map close cs) = length cs) by apply length_map.
  destruct (smaCrossover_points cs Hlen) as (E1 & E2 & E3 & E4).
  assert (P10 : Num.pos (windowMean (map close cs) 10 (length cs - 1)))
    by (apply windowMean_pos; [lia|lia|lia|done]).
  assert (P30 : Num.pos (windowMean (map close cs) 30 (length cs - 1)))
    by (apply windowMean_pos; [lia|lia|lia|done]).
  revert Hs. unfold _smaCrossover. cbv zeta.
  rewrite E1, E2, E3, E4.
  branches; intros [= <-]; simpl;
    try (apply in_range_const; lra);
    guards;
    (apply min2_in_range; [|lra|lra]); (apply nonneg_scale; [|lra]);
    apply quotient_nonneg; auto using pos_finite, pos_nonneg.
Qed.

Lemma rsiStrategy_strength cs s :
  _rsiStrategy toFixed cs = Some s -> in_range (strength s).
Proof.
  unfold _rsiStrategy. cbv zeta.
  branches; intros [= <-]; simpl; apply in_range_const; lra.
Qed.

Lemma breakoutStrategy_strength cs s :
  Forall priced cs -> Forall ordered cs ->
  _breakoutStrategy toFixed cs = Some s -> in_range (strength s).
Proof.
  intros Hpr Hord Hs.
  assert (Hlen : 21 <= length cs).
  { destruct (Nat.lt_ge_cases (length cs) 21) as [Hlt|]; [|done].
    apply (breakoutStrategy_None toFixed) in Hlt. congruence. }
  destruct (lookup_lt_is_Some_2 cs (length cs - 1)) as [current Hcur]; [lia|].
  assert (Hcf : Num.finite (close current)).
  { apply list_elem_of_lookup_2 in Hcur.
    rewrite Forall_forall in Hpr. destruct (Hpr _ Hcur) as (_ & _ & _ & H & _).
    by apply pos_finite. }
  pose proof (prior20_length cs Hlen) as H20.
  assert (Hne : prior20 cs <> []) by (intros E; by rewrite E in H20).
  assert (Hw : Forall priced (prior20 cs))
    by by apply Forall_take, Forall_drop.
  assert (Hwo : Forall ordered (prior20 cs))
    by by apply Forall_take, Forall_drop.
  assert (Hhf : Num.finite (Num.maxl (map high (prior20 cs)))).
  { apply maxl_finite; [by destruct (prior20 cs)|].
    apply Forall_fmap. eapply Forall_impl; [exact Hw|].
    intros c (_ & H & _). by apply pos_finite. }
  assert (Hlf : Num.finite (Num.minl (map low (prior20 cs)))).
  { apply minl_finite; [by destruct (prior20 cs)|].
    apply Forall_fmap. eapply Forall_impl; [exact Hw|].
    intros c (_ & _ & H & _). by apply pos_finite. }
  destruct (sub_nonneg _ _ Hhf Hlf (minl_le_maxl _ Hne Hwo)) as [Hrf Hrn].
  revert Hs. unfold _breakoutStrategy. cbv zeta.
  destruct (Nat.ltb_spec (length cs) 21); [lia|].
  rewrite Hcur, breakout_window by done.
  branches; intros [= <-]; simpl;
    try (apply in_range_const; lra);
    (apply min2_in_range; [|lra|lra]); (apply nonneg_scale; [|lra]);
    by apply quotient_nonneg.
Qed.

Lemma hftMomentum_strength cs s :
  _hftMomentum toFixed cs = Some s -> in_range (strength s).
Proof.
  unfold _hftMomentum. cbv zeta.
  destruct (length cs <? 30); [done|].
  destruct (_ !! _) as [current|]; [|done].
  set (v := hftVars _ current).
  branches; intros [= <-]; simpl;
    try (apply in_range_const; lra);
    guards;
    (apply min2_in_range; [|lra|lra]); apply nonneg_add;
    (apply nonneg_scale; [|lra]);
    first [ eapply nonneg_of_gt; [eassumption|lra]
          | apply nonneg_abs; eauto using ltb_not_NaN_l, ltb_not_NaN_r ].
Qed.

Lemma linearRegression_strength cs s :
  _linearRegression toFixed cs = Some s -> in_range (strength s).
Proof.
  unfold _linearRegression. cbv zeta.
  destruct (length cs <? 50); [done|].
  branches; intros [= <-]; simpl;
    try (apply in_range_const; lra);
    guards;
    (apply min2_in_range; [|lra|lra]); (apply nonneg_scale; [|lra]);
    first [ eapply nonneg_of_gt; [eassumption|lra]
          | apply nonneg_abs; eauto using ltb_not_NaN_l, ltb_not_NaN_r ].
Qed.

End Strength.

Lemma flat_priced t p v :
  (0 < p)%Q -> (0 <= v)%Q -> priced (flat t p v) /\ ordered (flat t p v).
Proof.
  intros Hp Hv. unfold priced, ordered, Num.pos, Num.finite, Num.nonneg.
  simpl. repeat split; eauto; NumFacts.qprop; lra.
Qed.

Lemma flats_priced n : forall t p v,
  (0 < p)%Q -> (0 <= v)%Q ->
  Forall priced (flats n t p v) /\ Forall ordered (flats n t p v).
Proof.
  induction n as [|n IH]; intros t p v Hp Hv; simpl.
  - split; constructor.
  - destruct (IH (t + 1)%Z p v Hp Hv) as [H1 H2].
    destruct (flat_priced t p v Hp Hv) as [H3 H4].
    split; by constructor.
Qed.

Lemma inverted_priced t p : (0 < p)%Q -> priced (inverted t p).
Proof.
  intros Hp. unfold priced, Num.pos, Num.finite, Num.nonneg.
  simpl. repeat split; eauto; try (eexists; split; [done|lra]).
Qed.

(** C8 (as amended).  On a history of candles with finite, strictly
    positive prices, finite non-negative volumes and low at or below high,
    whichever strategy is run, a signal that is returned has a strength
    between 0 and 100, both included. *)
Theorem strength_in_range toFixed (name sym : string) (cs : list Candle)
    (s : Signal) :
  Forall priced cs ->
  Forall ordered cs ->
  _runStrategy toFixed name sym cs = Some s ->
  in_range (strength s).
Proof.
  intros Hpr Hord. unfold _runStrategy.
  branches; intros Hs.
  - apply (smaCrossover_strength toFixed cs s); [|done].
    eapply Forall_impl; [exact Hpr|]. by intros c (_ & _ & _ & H & _).
  - by apply (rsiStrategy_strength toFixed cs s).
  - by apply (breakoutStrategy_strength toFixed cs s).
  - by apply (hftMomentum_strength toFixed cs s).
  - by apply (linearRegression_strength toFixed cs s).
  - done.
Qed.

(** C8, an instance: a close 5% above twenty flat bars gives a breakout
    BUY whose strength is capped at 100. *)
Lemma strength_in_range_witness :
  exists s,
    _runStrategy toFixedDec "breakout" "btcusdt"
      (flats 20 0 10 1 ++ [flat 20 10.5 2]) = Some s
    /\ action s = BUY
    /\ in_range (strength s).
Proof.
  eexists. split; [vm_compute; reflexivity|]. split; [reflexivity|].
  apply (strength_in_range toFixedDec "breakout" "btcusdt"
           (flats 20 0 10 1 ++ [flat 20 10.5 2])).
  - apply Forall_app. split.
    + apply flats_priced; lra.
    + apply Forall_singleton, flat_priced; lra.
  - apply Forall_app. split.
    + apply flats_priced; lra.
    + apply Forall_singleton, flat_priced; lra.
  - vm_compute. reflexivity.
Defined.

(** C8 as first stated fails: prices that are all strictly positive but
    with highs under the lows make the 20-bar range negative, and the
    breakout BUY then carries the strength -400. *)
Lemma strength_in_range_counterexample :
  Forall priced (invertedHistory 3)
  /\ 21 <= length (invertedHistory 3)
  /\ exists s,
      _runStrategy toFixedDec "breakout" "btcusdt" (invertedHistory 3)
      = Some s
      /\ action s = BUY
      /\ strength s = Fin (-400)
      /\ ~ in_range (strength s).
Proof.
  split; [|split].
  - apply Forall_app. split.
    + apply Forall_replicate, inverted_priced. lra.
    + apply Forall_singleton, inverted_priced. lra.
  - simpl. lia.
  - eexists. split; [vm_compute; reflexivity|].
    split; [reflexivity|]. split; [reflexivity|].
    intros [Hlo _]. vm_compute in Hlo. discriminate.
Qed.

(* ===================================================================== *)
(** ** Microstructure momentum and zero volume                            *)
(* ===================================================================== *)

Lemma last_drop_lt {A} (l : list A) (n : nat) :
  n < length l -> last (drop n l) = last l.
Proof.
  intros Hn. rewrite <- !lookup_last, lookup_drop, length_drop.
  f_equal. lia.
Qed.

(** The window [candles.slice(-30)] of a history of 30 candles or more. *)
Lemma hft_window {A} (cs : list A) :
  30 <= length cs ->
  slice_from cs (-30) = drop (length cs - 30) cs
  /\ length (slice_from cs (-30)) = 30
  /\ last (slice_from cs (-30)) = last cs.
Proof.
  intros Hlen.
  pose proof (slice_from_neg cs 30 ltac:(lia)) as Hs.
  change (- Z.of_nat 30)%Z with (-30)%Z in Hs.
  rewrite Hs, length_drop. split; [done|]. split; [lia|].
  apply last_drop_lt. lia.
Qed.

Section Hft.

Variable toFixed : float -> nat -> string.

(** [avgVol || 1] is neither zero nor NaN, and is 1 for a zero. *)
Lemma or_else64_truthy a :
  (F64.or_else a 1 =? 0)%float = false
  /\ (F64.or_else a 1 =? F64.or_else a 1)%float = true.
Proof.
  unfold F64.or_else, F64.truthy.
  destruct (a =? 0)%float eqn:E0, (a =? a)%float eqn:Ea; simpl; by split.
Qed.

Lemma or_else64_zero a :
  (a =? 0)%float = true -> F64.or_else a 1 = 1%float.
Proof. intros H. unfold F64.or_else, F64.truthy. by rewrite H. Qed.

(** The second component of the loop of [_vwap] is the sum of the
    volumes. *)
Lemma vwap64_cumVol cs : forall pv v,
  snd (foldl F64.vwapStep (pv, v) cs)
  = foldl PrimFloat.add v (map F64.volume cs).
Proof.
  induction cs as [|c cs IH]; intros pv v; simpl; [done|]. apply IH.
Qed.

Lemma closeAt64_last cs current :
  last cs = Some current ->
  F64.closeAt cs (length cs - 1) = F64.close current.
Proof. intros H. unfold F64.closeAt. by rewrite lookup_last, H. Qed.

(** [_vwap] divides only by a summed volume above zero, and falls back
    to the last close otherwise. *)
Lemma vwap64_fallback cs :
  (0 <? F64.total (map F64.volume cs))%float = false ->
  F64._vwap cs = F64.closeAt cs (length cs - 1).
Proof.
  unfold F64._vwap, F64.total. rewrite <- (vwap64_cumVol cs 0%float 0%float).
  destruct (foldl F64.vwapStep (0%float, 0%float) cs) as [pv v]. simpl.
  by intros ->.
Qed.

(** Zeros of either sign add up to [0]. *)
Lemma volumes64_zero cs :
  Forall (fun c => F64.zero (F64.volume c)) cs ->
  foldl (fun s c => (s + F64.volume c)%float) 0%float cs = 0%float.
Proof.
  induction cs as [|c cs IH]; intros Hcs; simpl; [done|].
  apply Forall_cons in Hcs as [[-> | ->] Hcs]; by apply IH.
Qed.

(** With no volume at all the volume ratio is a zero, below the 1.3 that
    BUY and SELL both ask for. *)
Lemma hftVars64_zero_volume recent current :
  length recent = 30 -> last recent = Some current ->
  Forall (fun c => F64.zero (F64.volume c)) recent ->
  (1.3 <? F64.hv_volRatio (F64.hftVars recent current))%float = false.
Proof.
  intros Hlen Hlast Hz.
  assert (Hcur : F64.zero (F64.volume current)).
  { rewrite Forall_forall in Hz. apply Hz, last_Some_elem_of.
    by rewrite Hlast. }
  unfold F64.hftVars. cbn [F64.hv_volRatio].
  unfold F64.trailingVolume. rewrite volumes64_zero, Hlen.
  - by destruct Hcur as [-> | ->].
  - unfold slice. by apply Forall_take, Forall_drop.
Qed.

(** C10 (as amended).  On 30 candles or more [_hftMomentum] always
    returns a signal.  [_vwap] divides by the summed volume of the window
    only when it is above zero, and returns the latest close otherwise;
    the divisor [avgVol || 1] of the volume ratio is never zero nor NaN,
    and is 1 when the trailing average volume is zero; with no volume at
    all the signal is HOLD at strength 10.  The divisions by [vwap] and by
    [microPrice] have no guard, and nothing is stated about them. *)
Theorem hftMomentum_total (cs : list F64.Candle) :
  30 <= length cs ->
  exists current s,
    last cs = Some current
    /\ F64._hftMomentum toFixed cs = Some s
    /\ ((0 <? F64.total (map F64.volume (slice_from cs (-30))))%float = false
        -> F64.hv_vwap (F64.hftVars (slice_from cs (-30)) current)
           = F64.close current)
    /\ (F64.hv_volDivisor (F64.hftVars (slice_from cs (-30)) current)
        =? 0)%float = false
    /\ (F64.hv_volDivisor (F64.hftVars (slice_from cs (-30)) current)
        =? F64.hv_volDivisor (F64.hftVars (slice_from cs (-30)) current)
       )%float = true
    /\ ((F64.hv_avgVol (F64.hftVars (slice_from cs (-30)) current)
         =? 0)%float = true ->
        F64.hv_volDivisor (F64.hftVars (slice_from cs (-30)) current)
        = 1%float)
    /\ (Forall (fun c => F64.zero (F64.volume c)) cs ->
        F64.action s = HOLD /\ F64.strength s = 10%float).
Proof.
  intros Hlen.
  destruct (hft_window cs Hlen) as (Hw & Hwl & Hwlast).
  destruct (last cs) as [current|] eqn:Hlast.
  2:{ apply last_None in Hlast. subst cs. simpl in Hlen. lia. }
  assert (Hrun : exists s, F64._hftMomentum toFixed cs = Some s).
  { unfold F64._hftMomentum.
    destruct (Nat.ltb_spec (length cs) 30); [lia|].
    rewrite lookup_last, Hwlast. cbv zeta. branches; by eexists. }
  destruct Hrun as [s Hs].
  exists current, s. split; [done|]. split; [done|].
  split; [|split; [|split; [|split]]].
  - intros Hvol. unfold F64.hftVars. simpl.
    rewrite (vwap64_fallback _ Hvol). by apply closeAt64_last.
  - unfold F64.hftVars. simpl. apply or_else64_truthy.
  - unfold F64.hftVars. simpl. apply or_else64_truthy.
  - unfold F64.hftVars. simpl. apply or_else64_zero.
  - intros Hz.
    assert (Hzw : Forall (fun c => F64.zero (F64.volume c))
                    (slice_from cs (-30))).
    { rewrite Hw. by apply Forall_drop. }
    pose proof (hftVars64_zero_volume (slice_from cs (-30)) current
                  Hwl Hwlast Hzw) as Hratio.
    revert Hs. unfold F64._hftMomentum.
    destruct (Nat.ltb_spec (length cs) 30); [lia|].
    rewrite lookup_last, Hwlast. cbv zeta.
    rewrite Hratio, !andb_false_r. by intros [= <-].
Qed.

End Hft.

Lemma flats64_zero_volume n : forall t p,
  Forall (fun c => F64.zero (F64.volume c)) (F64.flats n t p 0).
Proof.
  induction n as [|n IH]; intros t p; simpl; constructor;
    [by left|apply IH].
Qed.

(** C10, an instance: thirty bars at price 10 without any volume. *)
Lemma hftMomentum_total_witness :
  exists current s,
    last (F64.flats 30 0 10 0) = Some current
    /\ F64._hftMomentum F64.toFixedDec (F64.flats 30 0 10 0) = Some s
    /\ F64.action s = HOLD
    /\ F64.strength s = 10%float
    /\ F64.hv_vwap (F64.hftVars (slice_from (F64.flats 30 0 10 0) (-30))
                      current)
       = F64.close current.
Proof.
  destruct (hftMomentum_total F64.toFixedDec (F64.flats 30 0 10 0)
              ltac:(simpl; lia))
    as (current & s & H1 & H2 & H3 & _ & _ & _ & H7).
  exists current, s.
  destruct (H7 (flats64_zero_volume 30 0 10)) as [Ha Hs].
  repeat (split; [done|]).
  apply H3. vm_compute. reflexivity.
Defined.

(** C10 as first stated fails: on thirty candles whose prices and volumes
    are all zero the fallback makes [vwap] zero, and the deviation from it
    is 0/0. *)
Lemma hftMomentum_total_counterexample :
  30 <= length (F64.flats 30 0 0 0)
  /\ last (F64.flats 30 0 0 0) = Some (F64.flat 29 0 0)
  /\ F64.hv_vwap
       (F64.hftVars (slice_from (F64.flats 30 0 0 0) (-30)) (F64.flat 29 0 0))
     = 0%float
  /\ F64.hv_vwapDev
       (F64.hftVars (slice_from (F64.flats 30 0 0 0) (-30)) (F64.flat 29 0 0))
     = nan.
Proof.
  split; [simpl; lia|]. repeat split; vm_compute; reflexivity.
Qed.

(** Positive prices do not keep the divisors away from zero.  On thirty
    candles whose prices and volumes are all 1e-200 every product of a
    price and a volume underflows to zero, so [vwap] is 0 although the
    summed volume is above zero, and the deviation of the close from it
    is infinite; on thirty candles at 1e308 the sum in [microPrice]
    overflows and the deviation from it is NaN. *)
Lemma hftMomentum_rounding :
  F64.hv_vwap
    (F64.hftVars (F64.flats 30 0 1e-200 1e-200) (F64.flat 29 1e-200 1e-200))
  = 0%float
  /\ F64.hv_vwapDev
       (F64.hftVars (F64.flats 30 0 1e-200 1e-200)
          (F64.flat 29 1e-200 1e-200))
     = infinity
  /\ F64.hv_microPrice
       (F64.hftVars (F64.flats 30 0 1e308 1) (F64.flat 29 1e308 1))
     = infinity
  /\ F64.hv_microDev
       (F64.hftVars (F64.flats 30 0 1e308 1) (F64.flat 29 1e308 1))
     = nan.
Proof. repeat split; vm_compute; reflexivity. Qed.

(* ===================================================================== *)
(** ** What a tick changes and sends                                      *)
(* ===================================================================== *)

Lemma frame_outside_refl sym st : frame_outside sym st st.
Proof. by repeat split. Qed.

Lemma frame_outside_trans sym st1 st2 st3 :
  frame_outside sym st1 st2 -> frame_outside sym st2 st3 ->
  frame_outside sym st1 st3.
Proof.
  intros (A1 & A2 & A3 & A4 & A5) (B1 & B2 & B3 & B4 & B5).
  split; [congruence|]. split; [congruence|]. split; [congruence|].
  split; [congruence|]. intros other Hne.
  destruct (A5 other Hne) as [C1 C2]. destruct (B5 other Hne) as [D1 D2].
  split; congruence.
Qed.

Lemma deliveries_to_open st data :
  Forall (to_open (clients st)) (deliveries st data).
Proof.
  unfold deliveries. apply Forall_forall. intros d Hd.
  apply list_elem_of_fmap in Hd as (c & -> & Hc).
  apply list_elem_of_filter in Hc as [Hopen Hin].
  by exists c.
Qed.

(** The three ways the loop body can end. *)
Lemma emitSignal_cases now sym strat s st :
  (_isNewSignal st sym strat s = false
   /\ emitSignal now sym strat s st = Done st)
  \/ (_isNewSignal st sym strat s = true
      /\ lastSignals st !! sym = None
      /\ emitSignal now sym strat s st = Threw st)
  \/ (exists m,
        _isNewSignal st sym strat s = true
        /\ lastSignals st !! sym = Some m
        /\ emitSignal now sym strat s st
           = Done (broadcast
                     (mkEngine (clients st) (binanceSockets st) (candles st)
                        (activeStrategies st)
                        (<[sym := <[strat := s]> m]> (lastSignals st))
                        (closedSockets st) (sent st))
                     (EvSignal (toUpperCase sym) strat s now))).
Proof.
  unfold emitSignal.
  destruct (_isNewSignal st sym strat s); [|by left].
  destruct (lastSignals st !! sym) as [m|]; right; [right|left]; eauto.
Qed.

Lemma emitSignal_frame now sym strat s st :
  frame_outside sym st (state_of (emitSignal now sym strat s st)).
Proof.
  destruct (emitSignal_cases now sym strat s st)
    as [[_ ->]|[(_ & _ & ->)|(m & _ & _ & ->)]];
    try apply frame_outside_refl.
  simpl. do 4 (split; [done|]). intros other Hne. simpl.
  split; [done|]. by rewrite lookup_insert_ne.
Qed.

Lemma emitSignal_sent now sym strat s st :
  exists added,
    sent (state_of (emitSignal now sym strat s st)) = sent st ++ added
    /\ Forall (to_open (clients st)) added
    /\ clients (state_of (emitSignal now sym strat s st)) = clients st.
Proof.
  destruct (emitSignal_cases now sym strat s st)
    as [[_ ->]|[(_ & _ & ->)|(m & _ & _ & ->)]]; simpl.
  - exists []. by rewrite app_nil_r.
  - exists []. by rewrite app_nil_r.
  - eexists. split; [done|]. split; [|done].
    apply (deliveries_to_open st).
Qed.

Section Loop.

Variable toFixed : num -> nat -> string.

Lemma runStrategies_frame now sym cs strategies : forall st,
  frame_outside sym st
    (state_of (runStrategies toFixed now sym cs strategies st)).
Proof.
  induction strategies as [|strat rest IH]; intros st; simpl.
  - apply frame_outside_refl.
  - destruct (_runStrategy toFixed strat sym cs) as [s|]; [|apply IH].
    pose proof (emitSignal_frame now sym strat s st) as Hf.
    destruct (emitSignal now sym strat s st) as [st'|st']; simpl in *.
    + eapply frame_outside_trans; [exact Hf|apply IH].
    + done.
Qed.

Lemma runStrategies_sent now sym cs strategies : forall st,
  exists added,
    sent (state_of (runStrategies toFixed now sym cs strategies st))
    = sent st ++ added
    /\ Forall (to_open (clients st)) added.
Proof.
  induction strategies as [|strat rest IH]; intros st; simpl.
  - exists []. by rewrite app_nil_r.
  - destruct (_runStrategy toFixed strat sym cs) as [s|]; [|apply IH].
    destruct (emitSignal_sent now sym strat s st) as (a1 & H1 & F1 & Hc).
    destruct (emitSignal now sym strat s st) as [st'|st']; simpl in *.
    + destruct (IH st') as (a2 & H2 & F2).
      exists (a1 ++ a2). rewrite H2, H1, app_assoc. split; [done|].
      apply Forall_app. split; [done|]. by rewrite <- Hc.
    + by exists a1.
Qed.

(** The loop on an engine that holds a last-signal table for [sym]: it
    ends normally, what it sends are signals whose action the table of
    [st0] did not hold, and it leaves every strategy of the list in
    sync. *)
Lemma runStrategies_sync now sym cs strategies : forall st st0,
  is_Some (lastSignals st !! sym) ->
  (forall strat,
      recorded st sym strat = recorded st0 sym strat
      \/ in_sync toFixed sym cs st strat
         /\ is_Some (_runStrategy toFixed strat sym cs)) ->
  exists st' added,
    runStrategies toFixed now sym cs strategies st = Done st'
    /\ (forall strat,
          in_sync toFixed sym cs st strat ->
          in_sync toFixed sym cs st' strat)
    /\ (forall strat, strat ∈ strategies -> in_sync toFixed sym cs st' strat)
    /\ sent st' = sent st ++ added
    /\ Forall (fresh_signal toFixed sym cs st0) added.
Proof.
  induction strategies as [|strat rest IH]; intros st st0 Hm Hinv; simpl.
  - exists st, []. rewrite app_nil_r. repeat split; try done.
    intros strat Hin. by apply elem_of_nil in Hin.
  - destruct (_runStrategy toFixed strat sym cs) as [s|] eqn:Hrun.
    + destruct (emitSignal_cases now sym strat s st)
        as [[Hold He]|[(_ & Hnone & _)|(m & Hnew & Hsome & He)]].
      * (* the action is the recorded one *)
        rewrite He.
        assert (Hs : in_sync toFixed sym cs st strat).
        { intros s' Hs'. rewrite Hrun in Hs'. injection Hs' as <-.
          unfold _isNewSignal in Hold. fold (recorded st sym strat) in Hold.
          destruct (recorded st sym strat) as [last|]; [|done].
          exists last. split; [done|].
          apply action_eqb_eq. by apply negb_false_iff. }
        destruct (IH st st0 Hm Hinv) as (st' & added & Hd & Hk & Hall & Hsent & Hf).
        exists st', added. repeat split; try done.
        intros strat' Hin. apply elem_of_cons in Hin as [->|Hin]; auto.
      * rewrite Hnone in Hm. by destruct Hm.
      * (* a new action: recorded and sent *)
        rewrite He.
        set (st1 := broadcast _ _) in *.
        assert (Hrec1 : forall strat',
                   recorded st1 sym strat'
                   = if decide (strat' = strat) then Some s
                     else recorded st sym strat').
        { intros strat'. unfold recorded, st1. simpl.
          rewrite lookup_insert_eq. simpl. rewrite Hsome. simpl.
          destruct (decide (strat' = strat)) as [->|Hne].
          - apply lookup_insert_eq.
          - by rewrite lookup_insert_ne. }
        assert (Hs1 : in_sync toFixed sym cs st1 strat).
        { intros s' Hs'. rewrite Hrun in Hs'. injection Hs' as <-.
          exists s. split; [|done]. rewrite Hrec1. by rewrite decide_True. }
        assert (Hkeep : forall strat',
                   in_sync toFixed sym cs st strat' ->
                   in_sync toFixed sym cs st1 strat').
        { intros strat' Hsy. destruct (decide (strat' = strat)) as [->|Hne];
            [done|].
          intros s' Hs'. destruct (Hsy s' Hs') as (last & Hl & Ha).
          exists last. split; [|done]. rewrite Hrec1. by rewrite decide_False. }
        assert (Hfresh : recorded st0 sym strat = None
                         \/ exists last, recorded st0 sym strat = Some last
                                         /\ action last <> action s).
        { apply isNewSignal_spec in Hnew.
          destruct (Hinv strat) as [Heq|[Hsy _]].
          - by rewrite <- Heq.
          - destruct (Hsy s Hrun) as (last & Hl & Ha).
            destruct Hnew as [Hn|(l' & Hl' & Hne)]; congruence. }
        destruct (IH st1 st0) as (st' & added & Hd & Hk & Hall & Hsent & Hf).
        { unfold st1. simpl. rewrite lookup_insert_eq. eauto. }
        { intros strat'. destruct (decide (strat' = strat)) as [->|Hne].
          - right. split; [done|]. by rewrite Hrun.
          - destruct (Hinv strat') as [Heq|[Hsy Hex]].
            + left. rewrite Hrec1. by rewrite decide_False.
            + right. split; [by apply Hkeep|done]. }
        exists st', (deliveries st (EvSignal (toUpperCase sym) strat s now)
                     ++ added).
        split; [done|]. split; [by intros; apply Hk, Hkeep|].
        split.
        { intros strat' Hin. apply elem_of_cons in Hin as [->|Hin]; auto. }
        split.
        { rewrite Hsent. unfold st1. simpl. by rewrite app_assoc. }
        apply Forall_app. split; [|done].
        apply Forall_forall. intros d Hd'.
        unfold deliveries in Hd'.
        apply list_elem_of_fmap in Hd' as (c & -> & _).
        unfold fresh_signal. simpl. by repeat split.
    + destruct (IH st st0 Hm Hinv) as (st' & added & Hd & Hk & Hall & Hsent & Hf).
      exists st', added. repeat split; try done.
      intros strat' Hin. apply elem_of_cons in Hin as [->|Hin]; auto.
      intros s' Hs'. congruence.
Qed.

End Loop.

Lemma updateCandles_length_bounds cs c :
  length cs <= length (updateCandles cs c)
  /\ length (updateCandles cs c) <= length cs + 1.
Proof.
  unfold updateCandles.
  repeat match goal with
  | |- context [if ?b then _ else _] => destruct b eqn:?
  end; rewrite ?length_insert, ?length_drop, ?length_app; simpl; lia.
Qed.

(** X1.  A tick of [sym] leaves every other symbol's history and
    last-signal table as they were, and never touches the clients, the
    socket handles, the strategy sets or the list of closed sockets;
    this holds whether the call returns or raises. *)
Theorem processKline_frame toFixed (now : Z) (st : Engine) (sym : string)
    (kline : option Kline) :
  frame_outside sym st (state_of (_processKline toFixed now st sym kline)).
Proof.
  unfold _processKline.
  destruct kline as [k|]; [|apply frame_outside_refl].
  destruct (candles st !! sym) as [cs|]; [|apply frame_outside_refl].
  set (st1 := broadcast _ _).
  assert (H1 : frame_outside sym st st1).
  { unfold st1. simpl. do 4 (split; [done|]). intros other Hne. simpl.
    split; [|done]. by rewrite lookup_insert_ne. }
  destruct (_ && _); [|done].
  eapply frame_outside_trans; [exact H1|apply runStrategies_frame].
Qed.

(** X2.  Whatever [_processKline] and [unsubscribe] add to the log of
    sent messages is addressed to clients whose [readyState] is [OPEN];
    earlier messages stay in place. *)
Theorem broadcast_only_to_open toFixed (now : Z) (st : Engine)
    (sym : string) (kline : option Kline) :
  (exists added,
      sent (state_of (_processKline toFixed now st sym kline))
      = sent st ++ added
      /\ Forall (to_open (clients st)) added)
  /\ (exists added,
        sent (unsubscribe st sym) = sent st ++ added
        /\ Forall (to_open (clients st)) added).
Proof.
  split.
  - unfold _processKline.
    destruct kline as [k|]; [|exists []; by rewrite app_nil_r].
    destruct (candles st !! sym) as [cs|]; [|exists []; by rewrite app_nil_r].
    set (ev := EvPrice _ _ _ _ _ _).
    set (st1 := broadcast _ ev).
    destruct (_ && _).
    + destruct (runStrategies_sent toFixed now sym
                  (updateCandles cs (candleOf k))
                  (default [] (activeStrategies st1 !! sym)) st1)
        as (added & Hs & Hf).
      exists (deliveries st ev ++ added).
      rewrite Hs. unfold st1. simpl. rewrite app_assoc. split; [done|].
      apply Forall_app. split; [apply deliveries_to_open|done].
    + exists (deliveries st ev). split; [done|apply deliveries_to_open].
  - unfold unsubscribe.
    destruct (binanceSockets st !! _); simpl;
      (eexists; split; [done|]; apply (deliveries_to_open st)).
Qed.

(** X3.  A tick of a subscribed symbol that is not closed, or that comes
    while the history holds fewer than 49 candles, returns normally, sends
    the price event to the open clients and nothing else, and leaves the
    last-signal tables alone: no strategy is evaluated. *)
Theorem processKline_price_only toFixed (now : Z) (st : Engine)
    (sym : string) (cs : list Candle) (k : Kline) :
  candles st !! sym = Some cs ->
  k_x k = false \/ length cs < 49 ->
  exists st',
    _processKline toFixed now st sym (Some k) = Done st'
    /\ sent st'
       = sent st
         ++ deliveries st
              (EvPrice (toUpperCase sym) (k_c k) (k_h k) (k_l k) (k_v k)
                 (k_t k))
    /\ lastSignals st' = lastSignals st
    /\ candles st' = <[sym := updateCandles cs (candleOf k)]> (candles st).
Proof.
  intros Hcs Hquiet. unfold _processKline. rewrite Hcs.
  assert (Hno : closed (candleOf k)
                && (50 <=? length (updateCandles cs (candleOf k))) = false).
  { destruct Hquiet as [Hx|Hlen]; [simpl; by rewrite Hx|].
    apply andb_false_iff. right. apply Nat.leb_gt.
    pose proof (updateCandles_length_bounds cs (candleOf k)). lia. }
  rewrite Hno. eexists. split; [done|]. by split.
Qed.

(** X3, an instance: an update of the running minute. *)
Lemma processKline_price_only_witness :
  exists st',
    _processKline toFixedDec 7 (engineWith "btcusdt" (flats 60 0 10 1))
      "btcusdt" (Some (tick 59 11 false)) = Done st'
    /\ sent st'
       = sent (engineWith "btcusdt" (flats 60 0 10 1))
         ++ deliveries (engineWith "btcusdt" (flats 60 0 10 1))
              (EvPrice (toUpperCase "btcusdt") (k_c (tick 59 11 false))
                 (k_h (tick 59 11 false)) (k_l (tick 59 11 false))
                 (k_v (tick 59 11 false)) (k_t (tick 59 11 false)))
    /\ lastSignals st' = lastSignals (engineWith "btcusdt" (flats 60 0 10 1))
    /\ candles st'
       = <[ "btcusdt" := updateCandles (flats 60 0 10 1)
                           (candleOf (tick 59 11 false)) ]>
           (candles (engineWith "btcusdt" (flats 60 0 10 1))).
Proof.
  apply (processKline_price_only toFixedDec 7
           (engineWith "btcusdt" (flats 60 0 10 1)) "btcusdt"
           (flats 60 0 10 1) (tick 59 11 false)).
  - reflexivity.
  - left. reflexivity.
Defined.

(** X4.  What a tick of a subscribed symbol sends, whether it returns
    or raises: the price event, and after it only signals, of which each
    is what a strategy returns on the updated history and carries an
    action that is not the one the table held for that strategy before
    the tick. *)
Theorem processKline_signals_on_change toFixed (now : Z) (st : Engine)
    (sym : string) (cs : list Candle) (m : gmap string Signal) (k : Kline) :
  candles st !! sym = Some cs ->
  lastSignals st !! sym = Some m ->
  exists added,
    sent (state_of (_processKline toFixed now st sym (Some k)))
    = sent st
      ++ deliveries st
           (EvPrice (toUpperCase sym) (k_c k) (k_h k) (k_l k) (k_v k)
              (k_t k))
      ++ added
    /\ Forall (fresh_signal toFixed sym (updateCandles cs (candleOf k)) st)
         added.
Proof.
  intros Hcs Hm. unfold _processKline. rewrite Hcs.
  set (ev := EvPrice _ _ _ _ _ _). set (st1 := broadcast _ ev).
  destruct (_ && _).
  - destruct (runStrategies_sync toFixed now sym
                (updateCandles cs (candleOf k))
                (default [] (activeStrategies st1 !! sym)) st1 st)
      as (st' & added & Hd & _ & _ & Hsent & Hf).
    + unfold st1. simpl. by rewrite Hm.
    + intros strat. by left.
    + exists added. rewrite Hd. simpl. split; [|done].
      rewrite Hsent. unfold st1. simpl. by rewrite app_assoc.
  - exists []. split; [|constructor].
    unfold st1. simpl. by rewrite app_nil_r.
Qed.

(** X4, an instance: a closing tick on sixty flat candles. *)
Lemma processKline_signals_on_change_witness :
  exists added,
    sent (state_of
            (_processKline toFixedDec 7
               (engineWith "btcusdt" (flats 60 0 10 1)) "btcusdt"
               (Some (tick 60 11 true))))
    = sent (engineWith "btcusdt" (flats 60 0 10 1))
      ++ deliveries (engineWith "btcusdt" (flats 60 0 10 1))
           (EvPrice (toUpperCase "btcusdt") (k_c (tick 60 11 true))
              (k_h (tick 60 11 true)) (k_l (tick 60 11 true))
              (k_v (tick 60 11 true)) (k_t (tick 60 11 true)))
      ++ added
    /\ Forall (fresh_signal toFixedDec "btcusdt"
                 (updateCandles (flats 60 0 10 1)
                    (candleOf (tick 60 11 true)))
                 (engineWith "btcusdt" (flats 60 0 10 1)))
         added.
Proof.
  apply (processKline_signals_on_change toFixedDec 7
           (engineWith "btcusdt" (flats 60 0 10 1)) "btcusdt"
           (flats 60 0 10 1) ∅ (tick 60 11 true)); reflexivity.
Defined.

(** X5.  After a closing tick on a subscribed symbol whose history holds
    50 candles or more, the last-signal table agrees with the strategies:
    for every active strategy that returns a signal on the updated
    history, the table holds a signal with that action. *)
Theorem processKline_table_in_sync toFixed (now : Z) (st : Engine)
    (sym : string) (cs : list Candle) (m : gmap string Signal) (k : Kline) :
  candles st !! sym = Some cs ->
  lastSignals st !! sym = Some m ->
  k_x k = true ->
  50 <= length cs ->
  exists st',
    _processKline toFixed now st sym (Some k) = Done st'
    /\ forall strat,
         strat ∈ default [] (activeStrategies st !! sym) ->
         in_sync toFixed sym (updateCandles cs (candleOf k)) st' strat.
Proof.
  intros Hcs Hm Hx Hlen. unfold _processKline. rewrite Hcs.
  set (ev := EvPrice _ _ _ _ _ _). set (st1 := broadcast _ ev).
  assert (Hgo : closed (candleOf k)
                && (50 <=? length (updateCandles cs (candleOf k))) = true).
  { apply andb_true_iff. split; [exact Hx|]. apply Nat.leb_le.
    pose proof (updateCandles_length_bounds cs (candleOf k)). lia. }
  rewrite Hgo.
  destruct (runStrategies_sync toFixed now sym
              (updateCandles cs (candleOf k))
              (default [] (activeStrategies st1 !! sym)) st1 st)
    as (st' & added & Hd & _ & Hall & _ & _).
  - unfold st1. simpl. by rewrite Hm.
  - intros strat. by left.
  - exists st'. split; [done|]. exact Hall.
Qed.

(** X5, an instance: a closing tick on sixty flat candles. *)
Lemma processKline_table_in_sync_witness :
  exists st',
    _processKline toFixedDec 7 (engineWith "btcusdt" (flats 60 0 10 1))
      "btcusdt" (Some (tick 60 11 true)) = Done st'
    /\ forall strat,
         strat ∈ default []
                   (activeStrategies (engineWith "btcusdt" (flats 60 0 10 1))
                      !! "btcusdt") ->
         in_sync toFixedDec "btcusdt"
           (updateCandles (flats 60 0 10 1) (candleOf (tick 60 11 true)))
           st' strat.
Proof.
  apply (processKline_table_in_sync toFixedDec 7
           (engineWith "btcusdt" (flats 60 0 10 1)) "btcusdt"
           (flats 60 0 10 1) ∅ (tick 60 11 true));
    [reflexivity|reflexivity|reflexivity|simpl; lia].
Defined.

(** X6.  A tick that arrives for an ordinary symbol after [unsubscribe]
    raises before anything is changed or sent, and the message handler's
    [catch] leaves the engine exactly as [unsubscribe] left it. *)
Theorem late_tick_after_unsubscribe toFixed (now : Z) (st : Engine)
    (symbol : string) (k : Kline) :
  ordinary symbol ->
  _processKline toFixed now (unsubscribe st symbol)
    (replaceSlash (toLowerCase symbol)) (Some k)
  = Threw (unsubscribe st symbol)
  /\ socketMessage toFixed now (unsubscribe st symbol)
       (replaceSlash (toLowerCase symbol)) (Some (Some k))
     = unsubscribe st symbol.
Proof.
  intros _.
  assert (H : candles (unsubscribe st symbol)
                !! replaceSlash (toLowerCase symbol) = None).
  { unfold unsubscribe. destruct (binanceSockets st !! _); simpl;
      apply lookup_delete_eq. }
  unfold socketMessage, _processKline. by rewrite H.
Qed.

(** X6, an instance: a tick for BTC/USDT right after it is unsubscribed. *)
Lemma late_tick_after_unsubscribe_witness :
  _processKline toFixedDec 7
    (unsubscribe (engineWith "btcusdt" (flats 3 0 10 1)) "BTC/USDT")
    (replaceSlash (toLowerCase "BTC/USDT")) (Some (tick 3 11 true))
  = Threw (unsubscribe (engineWith "btcusdt" (flats 3 0 10 1)) "BTC/USDT")
  /\ socketMessage toFixedDec 7
       (unsubscribe (engineWith "btcusdt" (flats 3 0 10 1)) "BTC/USDT")
       (replaceSlash (toLowerCase "BTC/USDT")) (Some (Some (tick 3 11 true)))
     = unsubscribe (engineWith "btcusdt" (flats 3 0 10 1)) "BTC/USDT".
Proof.
  apply (late_tick_after_unsubscribe toFixedDec 7
           (engineWith "btcusdt" (flats 3 0 10 1)) "BTC/USDT"
           (tick 3 11 true)).
  split; reflexivity.
Defined.

(** The fields of the engine after [unsubscribe]. *)
Lemma unsubscribe_fields (st : Engine) (symbol : string) :
  clients (unsubscribe st symbol) = clients st
  /\ binanceSockets (unsubscribe st symbol)
     = delete (replaceSlash (toLowerCase symbol)) (binanceSockets st)
  /\ candles (unsubscribe st symbol)
     = delete (replaceSlash (toLowerCase symbol)) (candles st)
  /\ activeStrategies (unsubscribe st symbol)
     = delete (replaceSlash (toLowerCase symbol)) (activeStrategies st)
  /\ lastSignals (unsubscribe st symbol)
     = delete (replaceSlash (toLowerCase symbol)) (lastSignals st)
  /\ closedSockets (unsubscribe st symbol)
     = closedSockets st
       ++ match binanceSockets st !! replaceSlash (toLowerCase symbol) with
          | Some sock => [sock]
          | None => []
          end
  /\ sent (unsubscribe st symbol)
     = sent st
       ++ deliveries st
            (EvUnsubscribed
               (toUpperCase (replaceSlash (toLowerCase symbol)))).
Proof.
  unfold unsubscribe.
  destruct (binanceSockets st !! _) eqn:E; simpl; repeat split; try done.
  - by rewrite delete_id.
  - by rewrite app_nil_r.
Qed.

(** X7.  On an ordinary symbol [unsubscribe] is idempotent on the
    engine's dictionaries: a second call for the same symbol changes none
    of them, closes no socket, and only repeats the notice. *)
Theorem unsubscribe_twice (st : Engine) (symbol : string) :
  ordinary symbol ->
  candles (unsubscribe (unsubscribe st symbol) symbol)
  = candles (unsubscribe st symbol)
  /\ activeStrategies (unsubscribe (unsubscribe st symbol) symbol)
     = activeStrategies (unsubscribe st symbol)
  /\ lastSignals (unsubscribe (unsubscribe st symbol) symbol)
     = lastSignals (unsubscribe st symbol)
  /\ binanceSockets (unsubscribe (unsubscribe st symbol) symbol)
     = binanceSockets (unsubscribe st symbol)
  /\ closedSockets (unsubscribe (unsubscribe st symbol) symbol)
     = closedSockets (unsubscribe st symbol)
  /\ sent (unsubscribe (unsubscribe st symbol) symbol)
     = sent (unsubscribe st symbol)
       ++ deliveries st
            (EvUnsubscribed
               (toUpperCase (replaceSlash (toLowerCase symbol)))).
Proof.
  intros _.
  destruct (unsubscribe_fields (unsubscribe st symbol) symbol)
    as (Hc & Hb & Hca & Ha & Hl & Hcl & Hs).
  destruct (unsubscribe_fields st symbol)
    as (Hc' & Hb' & Hca' & Ha' & Hl' & _ & _).
  rewrite Hb, Hca, Ha, Hl, Hcl, Hs.
  rewrite Hb', Hca', Ha', Hl', !delete_delete_eq, lookup_delete_eq, app_nil_r.
  repeat split; try done.
  unfold deliveries. by rewrite Hc'.
Qed.

(** X7, an instance: BTC/USDT unsubscribed twice. *)
Lemma unsubscribe_twice_witness :
  candles
    (unsubscribe
       (unsubscribe (engineWith "btcusdt" (flats 3 0 10 1)) "BTC/USDT")
       "BTC/USDT")
  = candles (unsubscribe (engineWith "btcusdt" (flats 3 0 10 1)) "BTC/USDT")
  /\ sent
       (unsubscribe
          (unsubscribe (engineWith "btcusdt" (flats 3 0 10 1)) "BTC/USDT")
          "BTC/USDT")
     = sent (unsubscribe (engineWith "btcusdt" (flats 3 0 10 1)) "BTC/USDT")
       ++ deliveries (engineWith "btcusdt" (flats 3 0 10 1))
            (EvUnsubscribed
               (toUpperCase (replaceSlash (toLowerCase "BTC/USDT")))).
Proof.
  pose proof (unsubscribe_twice (engineWith "btcusdt" (flats 3 0 10 1))
                "BTC/USDT" (conj eq_refl eq_refl))
    as (Hcandles & _ & _ & _ & _ & Hsent).
  exact (conj Hcandles Hsent).
Defined.

(* ===================================================================== *)
(** ** Subscribing, reconnecting and the symbol key                       *)
(* ===================================================================== *)

(** X8.  [subscribe] on an ordinary symbol whose socket is open changes
    nothing and starts no fetch: the new strategy list is ignored.
    Otherwise it starts a fetch for the key, gives the key an empty
    history, the given strategies and an empty last-signal table, even
    when it had them already, and leaves every other key and the socket
    handles alone. *)
Theorem subscribe_effect (st : Engine) (symbol : string)
    (strategies : list string) :
  ordinary symbol ->
  (is_Some (binanceSockets st !! replaceSlash (toLowerCase symbol)) ->
   subscribe st symbol strategies = (st, None))
  /\ (binanceSockets st !! replaceSlash (toLowerCase symbol) = None ->
      (subscribe st symbol strategies).2
      = Some (replaceSlash (toLowerCase symbol))
      /\ candles (subscribe st symbol strategies).1
           !! replaceSlash (toLowerCase symbol) = Some []
      /\ activeStrategies (subscribe st symbol strategies).1
           !! replaceSlash (toLowerCase symbol) = Some strategies
      /\ lastSignals (subscribe st symbol strategies).1
           !! replaceSlash (toLowerCase symbol) = Some ∅
      /\ binanceSockets (subscribe st symbol strategies).1
         = binanceSockets st
      /\ same_elsewhere (replaceSlash (toLowerCase symbol)) st
           (subscribe st symbol strategies).1).
Proof.
  intros _. unfold subscribe. set (sym := replaceSlash (toLowerCase symbol)).
  split.
  - intros [ws ->]. done.
  - intros ->. simpl. split; [done|].
    split; [apply lookup_insert_eq|]. split; [apply lookup_insert_eq|].
    split; [apply lookup_insert_eq|]. split; [done|].
    do 3 (split; [done|]). intros other Hne. simpl.
    rewrite !lookup_insert_ne by congruence. done.
Qed.

(** X8, an instance: a second subscribe before the socket has opened
    replaces the strategy set. *)
Lemma subscribe_effect_witness :
  activeStrategies
    (subscribe (engineWith "btcusdt" (flats 3 0 10 1)) "BTC/USDT" ["rsi"]).1
    !! replaceSlash (toLowerCase "BTC/USDT") = Some ["rsi"].
Proof.
  apply (proj2 (subscribe_effect (engineWith "btcusdt" (flats 3 0 10 1))
                  "BTC/USDT" ["rsi"] (conj eq_refl eq_refl))).
  reflexivity.
Defined.



(** X10.  No reconnect after [unsubscribe]: once the symbol is
    unsubscribed, the ['close'] handler of its socket followed by the
    scheduled callback starts no fetch and leaves the engine as the
    handler left it, without any entry for the key. *)
Theorem reconnect_after_unsubscribe (st : Engine) (symbol : string) :
  reconnect
    (socketClose (unsubscribe st symbol) (replaceSlash (toLowerCase symbol)))
    (replaceSlash (toLowerCase symbol))
  = (socketClose (unsubscribe st symbol) (replaceSlash (toLowerCase symbol)),
     None)
  /\ candles
       (socketClose (unsubscribe st symbol)
          (replaceSlash (toLowerCase symbol)))
       !! replaceSlash (toLowerCase symbol) = None
  /\ binanceSockets
       (socketClose (unsubscribe st symbol)
          (replaceSlash (toLowerCase symbol)))
       !! replaceSlash (toLowerCase symbol) = None.
Proof.
  destruct (unsubscribe_fields st symbol) as (_ & _ & Hca & Ha & _).
  unfold reconnect. simpl. rewrite Ha, Hca, !lookup_delete_eq. done.
Qed.

(** Lower-casing and the slash. *)
Lemma lower_ascii_idem c : lower_ascii (lower_ascii c) = lower_ascii c.
Proof. by destruct c as [[] [] [] [] [] [] [] []]. Qed.

Lemma lower_ascii_slash c :
  Ascii.eqb (lower_ascii c) "/" = Ascii.eqb c "/".
Proof. by destruct c as [[] [] [] [] [] [] [] []]. Qed.

Lemma toLowerCase_idem s : toLowerCase (toLowerCase s) = toLowerCase s.
Proof.
  induction s as [|c r IH]; simpl; [done|]. by rewrite lower_ascii_idem, IH.
Qed.

Lemma replaceSlash_lower s :
  replaceSlash (toLowerCase s) = toLowerCase (replaceSlash s).
Proof.
  induction s as [|c r IH]; simpl; [done|].
  rewrite lower_ascii_slash. destruct (Ascii.eqb c "/"); [done|].
  simpl. by rewrite IH.
Qed.

Lemma slashes_lower s : slashes (toLowerCase s) = slashes s.
Proof.
  induction s as [|c r IH]; simpl; [done|].
  by rewrite lower_ascii_slash, IH.
Qed.

Lemma replaceSlash_none s : slashes s = 0 -> replaceSlash s = s.
Proof.
  induction s as [|c r IH]; simpl; [done|].
  destruct (Ascii.eqb c "/"); [done|]. simpl. intros H. by rewrite IH.
Qed.

Lemma replaceSlash_some s :
  1 <= slashes s ->
  slashes (replaceSlash s) = slashes s - 1
  /\ String.length (replaceSlash s) + 1 = String.length s.
Proof.
  induction s as [|c r IH]; simpl; [lia|].
  destruct (Ascii.eqb c "/") eqn:E; simpl.
  - intros _. split; lia.
  - rewrite E. simpl. intros H. destruct (IH H). split; lia.
Qed.

(** X11.  The key of a symbol is stable under the normalisation exactly
    when the symbol holds at most one slash: [subscribe] and
    [unsubscribe] lower-case the symbol and drop its first slash only, so
    normalising the key of a symbol with two slashes or more (as the
    reconnect callback does) gives a different, shorter key. *)
Theorem symbol_key_stable (symbol : string) :
  (slashes symbol <= 1 ->
   replaceSlash (toLowerCase (replaceSlash (toLowerCase symbol)))
   = replaceSlash (toLowerCase symbol))
  /\ (2 <= slashes symbol ->
      replaceSlash (toLowerCase (replaceSlash (toLowerCase symbol)))
      <> replaceSlash (toLowerCase symbol)).
Proof.
  rewrite (replaceSlash_lower symbol), toLowerCase_idem.
  rewrite (replaceSlash_lower (replaceSlash symbol)).
  split.
  - intros Hle. f_equal.
    destruct (decide (slashes symbol = 0)) as [H0|H1].
    + rewrite (replaceSlash_none symbol H0). exact (replaceSlash_none symbol H0).
    + destruct (replaceSlash_some symbol) as [Hs _]; [lia|].
      apply replaceSlash_none. lia.
  - intros Hge Heq.
    destruct (replaceSlash_some symbol) as [Hs Hl]; [lia|].
    destruct (replaceSlash_some (replaceSlash symbol)) as [_ Hl']; [lia|].
    assert (Hlen : forall s, String.length (toLowerCase s) = String.length s).
    { intros s. induction s as [|c r IH]; simpl; [done|]. by rewrite IH. }
    apply (f_equal String.length) in Heq. rewrite !Hlen in Heq. lia.
Qed.

(** X11, an instance: the usual spelling, and a symbol with two
    slashes. *)
Lemma symbol_key_stable_witness :
  replaceSlash (toLowerCase (replaceSlash (toLowerCase "BTC/USDT")))
  = replaceSlash (toLowerCase "BTC/USDT")
  /\ replaceSlash (toLowerCase (replaceSlash (toLowerCase "BTC//USDT")))
     <> replaceSlash (toLowerCase "BTC//USDT").
Proof.
  split.
  - apply (proj1 (symbol_key_stable "BTC/USDT")). simpl. lia.
  - apply (proj2 (symbol_key_stable "BTC//USDT")). simpl. lia.
Defined.

(** X12.  When the reconnect callback finds the strategies of a key that
    is stable under the normalisation, it starts a fetch for the same key
    and keeps the strategy set, but the history and the last-signal table
    start again empty and the socket handle is gone: the signals of the
    symbol will be sent afresh. *)
Theorem reconnect_resets (st : Engine) (sym : string)
    (strategies : list string) :
  activeStrategies st !! sym = Some strategies ->
  replaceSlash (toLowerCase sym) = sym ->
  (reconnect st sym).2 = Some sym
  /\ activeStrategies (reconnect st sym).1 !! sym = Some strategies
  /\ candles (reconnect st sym).1 !! sym = Some []
  /\ lastSignals (reconnect st sym).1 !! sym = Some ∅
  /\ binanceSockets (reconnect st sym).1 !! sym = None
  /\ same_elsewhere sym st (reconnect st sym).1.
Proof.
  intros Ha Hkey. unfold reconnect, subscribe. rewrite Ha, Hkey. simpl.
  rewrite lookup_delete_eq. simpl.
  split; [done|]. split; [apply lookup_insert_eq|].
  split; [apply lookup_insert_eq|]. split; [apply lookup_insert_eq|].
  split; [apply lookup_delete_eq|].
  do 3 (split; [done|]). intros other Hne. simpl.
  rewrite !lookup_insert_ne by congruence.
  by rewrite lookup_delete_ne by congruence.
Qed.

(** X12, an instance: a feed with history that reconnects. *)
Lemma reconnect_resets_witness :
  (reconnect (engineWith "btcusdt" (flats 60 0 10 1)) "btcusdt").2
  = Some "btcusdt"
  /\ candles (reconnect (engineWith "btcusdt" (flats 60 0 10 1)) "btcusdt").1
       !! "btcusdt" = Some [].
Proof.
  destruct (reconnect_resets (engineWith "btcusdt" (flats 60 0 10 1))
              "btcusdt" defaultStrategies eq_refl eq_refl)
    as (H1 & _ & H3 & _).
  exact (conj H1 H3).
Defined.

(** X13.  A strategy name other than the five known ones never yields a
    signal, whatever the history: such a name in a subscription is
    silently inert. *)
Theorem unknown_strategy_no_signal toFixed (name sym : string)
    (cs : list Candle) :
  name ∉ defaultStrategies ->
  _runStrategy toFixed name sym cs = None.
Proof.
  intros Hnot. unfold _runStrategy.
  repeat match goal with
  | |- context [String.eqb name ?lit] =>
      destruct (String.eqb_spec name lit) as [->|_];
        [exfalso; apply Hnot; unfold defaultStrategies; set_solver|]
  end.
  done.
Qed.

(** X13, an instance. *)
Lemma unknown_strategy_no_signal_witness :
  _runStrategy toFixedDec "macd" "btcusdt" (flats 60 0 10 1) = None.
Proof.
  apply (unknown_strategy_no_signal toFixedDec "macd" "btcusdt").
  unfold defaultStrategies. intros H.
  repeat (apply elem_of_cons in H as [H|H]; [discriminate|]).
  by apply elem_of_nil in H.
Defined.

(** X14.  A subscribe message that names no strategies, for an ordinary
    symbol without an open socket, activates five strategies for the key,
    and each of them returns a signal on every history of 50 candles or
    more; a message that carries a list, even an empty one, activates
    exactly that list. *)
Theorem handleClientMessage_subscribe toFixed (st : Engine)
    (symbol : string) (given : option (list string)) :
  ordinary symbol ->
  binanceSockets st !! replaceSlash (toLowerCase symbol) = None ->
  activeStrategies
    (_handleClientMessage st (mkClientMsg "subscribe" symbol given)).1
    !! replaceSlash (toLowerCase symbol)
  = Some (default defaultStrategies given)
  /\ (_handleClientMessage st (mkClientMsg "subscribe" symbol given)).2
     = Some (replaceSlash (toLowerCase symbol))
  /\ forall name sym cs,
       name ∈ defaultStrategies ->
       50 <= length cs ->
       is_Some (_runStrategy toFixed name sym cs).
Proof.
  intros _ Hb.
  unfold _handleClientMessage, subscribe. simpl. rewrite Hb. simpl.
  split; [apply lookup_insert_eq|]. split; [done|].
  intros name sym cs Hin Hlen. unfold defaultStrategies in Hin.
  apply not_eq_None_Some. intros Hnone.
  repeat (apply elem_of_cons in Hin as [->|Hin]);
    [apply smaCrossover_None in Hnone
    |apply rsiStrategy_None in Hnone
    |apply breakoutStrategy_None in Hnone
    |apply hftMomentum_None in Hnone
    |apply linearRegression_None in Hnone
    |by apply elem_of_nil in Hin]; lia.
Qed.

(** X14, an instance: the default list, and an empty list. *)
Lemma handleClientMessage_subscribe_witness :
  activeStrategies
    (_handleClientMessage (engineWith "btcusdt" [])
       (mkClientMsg "subscribe" "ETH/USDT" None)).1
    !! replaceSlash (toLowerCase "ETH/USDT")
  = Some defaultStrategies
  /\ activeStrategies
       (_handleClientMessage (engineWith "btcusdt" [])
          (mkClientMsg "subscribe" "ETH/USDT" (Some []))).1
       !! replaceSlash (toLowerCase "ETH/USDT")
     = Some [].
Proof.
  split.
  - apply (proj1 (handleClientMessage_subscribe toFixedDec
                    (engineWith "btcusdt" []) "ETH/USDT" None
                    (conj eq_refl eq_refl) eq_refl)).
  - apply (proj1 (handleClientMessage_subscribe toFixedDec
                    (engineWith "btcusdt" []) "ETH/USDT" (Some [])
                    (conj eq_refl eq_refl) eq_refl)).
Defined.

(** X15.  From a subscribe to the open socket: for an ordinary symbol
    without an open socket, after [subscribe], the settled fetch and the
    ['open'] handler of the new socket, the key holds the socket handle,
    the seeded history (one closed candle per row, in order; none after a
    failed fetch), the given strategies and an empty last-signal table;
    every open client is told the number of seeded candles; and a further
    [subscribe] for the symbol is then ignored. *)
Theorem subscribe_fetch_open (st : Engine) (symbol : string)
    (strategies later : list string) (reply : option (list Row)) (ws : nat) :
  ordinary symbol ->
  binanceSockets st !! replaceSlash (toLowerCase symbol) = None ->
  exists st3,
    socketOpen
      (_fetchInitialCandles (subscribe st symbol strategies).1
         (replaceSlash (toLowerCase symbol)) reply)
      (replaceSlash (toLowerCase symbol)) ws
    = (Done st3,
       map (fun c =>
              (cid c,
               NoteSubscribed
                 (toUpperCase (replaceSlash (toLowerCase symbol)))
                 (length (default [] reply))))
           (filter (fun c => readyState c = OPEN) (clients st)))
    /\ binanceSockets st3 !! replaceSlash (toLowerCase symbol) = Some ws
    /\ candles st3 !! replaceSlash (toLowerCase symbol)
       = Some (map seedCandle (default [] reply))
    /\ Forall (fun c => closed c = true) (map seedCandle (default [] reply))
    /\ activeStrategies st3 !! replaceSlash (toLowerCase symbol)
       = Some strategies
    /\ lastSignals st3 !! replaceSlash (toLowerCase symbol) = Some ∅
    /\ subscribe st3 symbol later = (st3, None).
Proof.
  intros _ Hb. unfold subscribe at 1. rewrite Hb.
  set (sym := replaceSlash (toLowerCase symbol)).
  unfold socketOpen, _fetchInitialCandles. simpl.
  rewrite lookup_insert_eq.
  assert (Hseed : match reply with
                  | Some rows => map seedCandle rows
                  | None => []
                  end = map seedCandle (default [] reply))
    by by destruct reply.
  rewrite Hseed, length_map.
  eexists. split; [done|]. simpl.
  split; [apply lookup_insert_eq|].
  split; [by rewrite insert_insert_eq, lookup_insert_eq|].
  split; [by apply Forall_fmap, Forall_true|].
  split; [apply lookup_insert_eq|]. split; [apply lookup_insert_eq|].
  unfold subscribe. fold sym. simpl. by rewrite lookup_insert_eq.
Qed.

(** X15, an instance: a reply of three rows. *)
Lemma subscribe_fetch_open_witness :
  exists st3,
    socketOpen
      (_fetchInitialCandles
         (subscribe (engineWith "btcusdt" []) "ETH/USDT" ["rsi"]).1
         (replaceSlash (toLowerCase "ETH/USDT")) (Some (rows 3 0 10)))
      (replaceSlash (toLowerCase "ETH/USDT")) 4
    = (Done st3,
       map (fun c =>
              (cid c,
               NoteSubscribed
                 (toUpperCase (replaceSlash (toLowerCase "ETH/USDT")))
                 (length (default [] (Some (rows 3 0 10))))))
           (filter (fun c => readyState c = OPEN)
              (clients (engineWith "btcusdt" []))))
    /\ binanceSockets st3 !! replaceSlash (toLowerCase "ETH/USDT") = Some 4
    /\ candles st3 !! replaceSlash (toLowerCase "ETH/USDT")
       = Some (map seedCandle (default [] (Some (rows 3 0 10))))
    /\ Forall (fun c => closed c = true)
         (map seedCandle (default [] (Some (rows 3 0 10))))
    /\ activeStrategies st3 !! replaceSlash (toLowerCase "ETH/USDT")
       = Some ["rsi"]
    /\ lastSignals st3 !! replaceSlash (toLowerCase "ETH/USDT") = Some ∅
    /\ subscribe st3 "ETH/USDT" [] = (st3, None).
Proof.
  apply (subscribe_fetch_open (engineWith "btcusdt" []) "ETH/USDT" ["rsi"]
           [] (Some (rows 3 0 10)) 4 (conj eq_refl eq_refl)).
  reflexivity.
Defined.

(** X16.  The seeded buffer stays in order: when the rows of the fetch
    carry strictly increasing timestamps and the ticks that follow never
    go back in time, nor before a seeded row, the buffer keeps strictly
    increasing timestamps after every tick; and a seed of at most 500 rows
    never grows beyond 500 candles. *)
Theorem seeded_feed_increasing toFixed (now : Z) (st : Engine)
    (sym : string) (seed : list Row) (ticks : list Kline) :
  StronglySorted Z.lt (map r_t seed) ->
  Sorted Z.le (map k_t ticks) ->
  Forall (fun r => Forall (fun k => (r_t r <= k_t k)%Z) ticks) seed ->
  exists cs,
    candles (feed toFixed now (_fetchInitialCandles st sym (Some seed)) sym
               ticks) !! sym = Some cs
    /\ StronglySorted Z.lt (map time cs)
    /\ (length seed <= 500 -> length cs <= 500).
Proof.
  intros Hseed Hticks Hle.
  set (st1 := _fetchInitialCandles st sym (Some seed)).
  assert (Hc : candles st1 !! sym = Some (map seedCandle seed))
    by apply lookup_insert_eq.
  assert (Hst : map time (map seedCandle seed) = map r_t seed).
  { rewrite <- list_fmap_compose. by apply list_fmap_ext. }
  assert (Hlen : length seed <= 500 ->
                 exists cs, candles (feed toFixed now st1 sym ticks) !! sym
                            = Some cs /\ length cs <= 500).
  { intros H. eapply feed_length; [exact Hc|]. by rewrite length_map. }
  destruct ticks as [|k rest].
  - exists (map seedCandle seed). simpl. split; [done|].
    split; [by rewrite Hst|]. by rewrite length_map.
  - destruct (feed_increasing toFixed now sym (k :: rest) st1
                (map seedCandle seed) (k_t k) Hc) as (cs & Hcs & Hs).
    + split; [by rewrite Hst|].
      apply Forall_fmap. eapply Forall_impl; [exact Hle|].
      intros r Hr. by apply Forall_cons in Hr as [? _].
    + constructor; [done|]. constructor. simpl. lia.
    + exists cs. split; [done|]. split; [done|].
      intros H. destruct (Hlen H) as (cs' & Hcs' & Hl). congruence.
Qed.

(** X16, an instance: three rows, then the minute that follows. *)
Lemma seeded_feed_increasing_witness :
  exists cs,
    candles (feed toFixedDec 7
               (_fetchInitialCandles (engineWith "btcusdt" []) "btcusdt"
                  (Some (rows 3 0 10)))
               "btcusdt" [tick 2 11 false; tick 2 12 true; tick 3 12 true])
      !! "btcusdt" = Some cs
    /\ StronglySorted Z.lt (map time cs)
    /\ (length (rows 3 0 10) <= 500 -> length cs <= 500).
Proof.
  apply (seeded_feed_increasing toFixedDec 7 (engineWith "btcusdt" [])
           "btcusdt" (rows 3 0 10)
           [tick 2 11 false; tick 2 12 true; tick 3 12 true]).
  - simpl. repeat constructor; lia.
  - simpl. repeat constructor; lia.
  - simpl. repeat constructor; simpl; lia.
Defined.

(* ===================================================================== *)
(** ** The indicators                                                     *)
(* ===================================================================== *)

Section Indicators.

Import NumFacts.

(** X17.  [_sma] has one point per full window: nothing when the values
    are fewer than the period, else [length - period + 1] points, of
    which the k-th is the mean of the [period] values that start at
    index k. *)
Theorem sma_points (values : list num) (p : nat) :
  1 <= p ->
  (length values < p -> _sma values p = [])
  /\ (p <= length values ->
      length (_sma values p) = length values + 1 - p
      /\ forall k,
           k + p <= length values ->
           _sma values p !! k = Some (windowMean values p (k + p - 1))).
Proof.
  intros Hp. unfold _sma. split.
  - intros Hlt. by destruct (Nat.ltb_spec (length values) p); [|lia].
  - intros Hle. destruct (Nat.ltb_spec (length values) p); [lia|].
    split; [rewrite length_map, length_seq; lia|].
    intros k Hk. rewrite list_lookup_fmap, lookup_seq_lt by lia. simpl.
    rewrite slice_window by lia. unfold windowMean.
    by replace (p - 1 + k + 1 - p) with (k + p - 1 + 1 - p) by lia.
Qed.

(** X17, an instance: a 3-bar average of five values. *)
Lemma sma_points_witness :
  length (_sma [Fin 1; Fin 2; Fin 3; Fin 4; Fin 5] 3) = 5 + 1 - 3
  /\ _sma [Fin 1; Fin 2] 3 = [].
Proof.
  split.
  - apply (proj2 (sma_points [Fin 1; Fin 2; Fin 3; Fin 4; Fin 5] 3
                    ltac:(lia))). simpl. lia.
  - apply (proj1 (sma_points [Fin 1; Fin 2] 3 ltac:(lia))). simpl. lia.
Defined.

End Indicators.

Section Rsi.

Import NumFacts.

(** An invariant of a loop over a list of indices. *)
Lemma foldl_invariant {A B} (f : A -> B -> A) (P : A -> Prop)
    (Q : B -> Prop) (l : list B) : forall acc,
  P acc ->
  (forall a x, P a -> Q x -> P (f a x)) ->
  Forall Q l ->
  P (foldl f acc l).
Proof.
  induction l as [|x l IH]; intros acc Hacc Hstep Hl; simpl; [done|].
  apply Forall_cons in Hl as [Hx Hl]. apply IH; auto.
Qed.

Lemma idx_finite (values : list num) (i : nat) :
  Forall Num.finite values -> i < length values ->
  Num.finite (Num.idx values i).
Proof.
  intros Hf Hi. unfold Num.idx.
  destruct (lookup_lt_is_Some_2 values i Hi) as [v Hv]. rewrite Hv. simpl.
  rewrite Forall_forall in Hf. apply Hf. by eapply list_elem_of_lookup_2.
Qed.

Lemma seq_in_range (a n len : nat) :
  a + n <= len -> Forall (fun i => a <= i /\ i < len) (seq a n).
Proof.
  intros H. apply Forall_forall. intros i Hi. apply elem_of_seq in Hi. lia.
Qed.

Lemma period_pos (period : nat) :
  1 <= period ->
  (0 < inject_Z (Z.of_nat period))%Q
  /\ (0 <= inject_Z (Z.of_nat period) + - (1))%Q.
Proof.
  intros Hp.
  assert (1 <= inject_Z (Z.of_nat period))%Q by (rewrite <- (Zle_Qle 1); lia).
  split; lra.
Qed.

End Rsi.

Section RsiTrends.

Import NumFacts.

Variable toFixed : num -> nat -> string.

Lemma zero_div (y P : Q) :
  (y == 0)%Q -> (0 < P)%Q ->
  exists y', (Fin y / Fin P)%J = Fin y' /\ (y' == 0)%Q.
Proof.
  intros Hy HP. simpl. destruct (Qeq_bool P 0) eqn:E; qprop; [lra|].
  eexists. split; [done|]. rewrite Hy. apply Qmult_0_l.
Qed.

Lemma zero_smooth (y P : Q) :
  (y == 0)%Q -> (0 < P)%Q ->
  exists y', ((Fin y * (Fin P - Fin 1) + Fin 0) / Fin P)%J = Fin y'
             /\ (y' == 0)%Q.
Proof.
  intros Hy HP. simpl. destruct (Qeq_bool P 0) eqn:E; qprop; [lra|].
  eexists. split; [done|]. rewrite Hy. unfold Qdiv. ring.
Qed.

(** When no difference is negative the losses stay at zero and [_rsi]
    answers 100. *)
Lemma rsi_never_falls (values : list num) (period : nat) :
  1 <= period -> period + 1 <= length values -> neverFalls values ->
  _rsi values period = Some (Fin 100).
Proof.
  intros Hp Hlen Hnf. destruct (period_pos period Hp) as [HP _].
  unfold _rsi.
  destruct (Nat.ltb_spec (length values) (period + 1)); [lia|].
  match goal with
  | |- context [foldl ?f (Fin 0, Fin 0) (seq 1 period)] =>
      assert (H1 : exists y, (foldl f (Fin 0, Fin 0) (seq 1 period)).2 = Fin y
                             /\ (y == 0)%Q)
  end.
  { apply (foldl_invariant _ (fun a => exists y, a.2 = Fin y /\ (y == 0)%Q)
             (fun i => 1 <= i /\ i < length values)).
    - by exists 0%Q.
    - intros [g l] i Hl [Hi1 Hi2]. cbv beta iota zeta.
      by rewrite (Hnf i Hi1 Hi2).
    - apply seq_in_range. lia. }
  destruct (foldl _ (Fin 0, Fin 0) (seq 1 period)) as [gains losses].
  destruct H1 as (l & Hl & Hl0). simpl in Hl. subst losses.
  match goal with
  | |- context [foldl ?f ?a (seq (period + 1) ?n)] =>
      assert (H2 : exists y, (foldl f a (seq (period + 1) n)).2 = Fin y
                             /\ (y == 0)%Q)
  end.
  { apply (foldl_invariant _ (fun a => exists y, a.2 = Fin y /\ (y == 0)%Q)
             (fun i => period + 1 <= i /\ i < length values)).
    - simpl. exact (zero_div l _ Hl0 HP).
    - intros [ag al] i (y & Hy & Hy0) [Hi1 Hi2]. simpl in Hy. subst al.
      cbv beta iota zeta.
      pose proof (Hnf i ltac:(lia) Hi2) as Hge.
      rewrite (leb_not_ltb _ _ Hge). simpl snd.
      exact (zero_smooth y _ Hy0 HP).
    - apply seq_in_range. lia. }
  destruct (foldl _ _ (seq (period + 1) _)) as [avgGain avgLoss].
  destruct H2 as (al & Hal & Hal0). simpl in Hal. subst avgLoss.
  simpl. apply Qeq_bool_iff in Hal0. by rewrite Hal0.
Qed.

(** X20.  A series of closes that never falls (a flat market included)
    has no losses, so with 15 candles or more the RSI is exactly 100 and
    [_rsiStrategy] answers SELL with strength 90. *)
Theorem rsi_rising_sell (cs : list Candle) :
  15 <= length cs ->
  neverFalls (map close cs) ->
  _rsi (map close cs) 14 = Some (Fin 100)
  /\ exists s, _rsiStrategy toFixed cs = Some s
               /\ action s = SELL /\ strength s = Fin 90.
Proof.
  intros Hlen Hnf.
  assert (H : _rsi (map close cs) 14 = Some (Fin 100)).
  { apply rsi_never_falls; [lia| |done]. rewrite length_map. lia. }
  split; [done|]. unfold _rsiStrategy. rewrite H. cbv zeta.
  change ((Fin 100 <=? Fin 25)%J) with false.
  change ((Fin 100 <=? Fin 30)%J) with false.
  change ((Fin 100 >=? Fin 75)%J) with true.
  cbv iota. eexists. done.
Qed.

End RsiTrends.

Lemma flats_never_fall n : forall t p v,
  neverFalls (map close (flats n t p v)).
Proof.
  intros t p v i Hi1 Hi2.
  assert (Hall : forall j, j < length (map close (flats n t p v)) ->
                 Num.idx (map close (flats n t p v)) j = Fin p).
  { clear. revert t. induction n as [|n IH]; intros t j Hj; simpl in *; [lia|].
    destruct j as [|j]; [done|]. apply (IH (t + 1)%Z). lia. }
  rewrite !Hall by lia. simpl. NumFacts.qprop. lra.
Qed.

(** X20, an instance: twenty flat candles. *)
Lemma rsi_rising_sell_witness :
  _rsi (map close (flats 20 0 10 1)) 14 = Some (Fin 100)
  /\ exists s, _rsiStrategy toFixedDec (flats 20 0 10 1) = Some s
               /\ action s = SELL /\ strength s = Fin 90.
Proof.
  apply (rsi_rising_sell toFixedDec (flats 20 0 10 1)).
  - simpl. lia.
  - apply flats_never_fall.
Defined.

Section RsiFalling.

Import NumFacts.

Variable toFixed : num -> nat -> string.

Lemma fall_step (x y d : Q) :
  (d < 0)%Q -> (x == 0)%Q -> (0 <= y)%Q ->
  zero_gain_pair
    (if (Fin d >=? Fin 0)%J then ((Fin x + Fin d)%J, Fin y)
     else (Fin x, (Fin y - Fin d)%J)).
Proof.
  intros Hd Hx Hy. simpl. destruct (Qle_bool 0 d) eqn:E; qprop; [lra|].
  eexists _, _. split; [done|]. split; [done|]. lra.
Qed.

Lemma fall_smooth (P x y d : Q) :
  (0 < P)%Q -> (0 <= P + - (1))%Q -> (d < 0)%Q -> (x == 0)%Q -> (0 < y)%Q ->
  zero_gain_pair
    (((Fin x * (Fin P - Fin 1)
       + (if (Fin d >=? Fin 0)%J then Fin d else Fin 0)) / Fin P)%J,
     ((Fin y * (Fin P - Fin 1)
       + (if (Fin d <? Fin 0)%J then (- Fin d)%J else Fin 0)) / Fin P)%J).
Proof.
  intros HP HP1 Hd Hx Hy. simpl.
  destruct (Qle_bool 0 d) eqn:E1; destruct (Num.Qltb d 0) eqn:E2; simpl;
    destruct (Qeq_bool P 0) eqn:E; qprop; try lra.
  eexists _, _. split; [done|]. split.
  - rewrite Hx. unfold Qdiv. ring.
  - apply Qlt_shift_div_l; [done|]. nra.
Qed.

Lemma fall_final (x y : Q) :
  (x == 0)%Q -> (0 < y)%Q ->
  exists r,
    (if (Fin y =? Fin 0)%J then Some (Fin 100)
     else Some (Fin 100 - Fin 100 / (Fin 1 + Fin x / Fin y))%J)
    = Some (Fin r)
    /\ (r == 0)%Q.
Proof.
  intros Hx Hy. simpl. destruct (Qeq_bool y 0) eqn:E; qprop; [lra|].
  assert (Hrs : (x / y == 0)%Q) by (rewrite Hx; apply Qmult_0_l).
  simpl. destruct (Qeq_bool (1 + x / y) 0) eqn:E1; qprop; [lra|].
  eexists. split; [done|]. rewrite Hrs. reflexivity.
Qed.

(** When every difference is negative the gains stay at zero and [_rsi]
    answers 0. *)
Lemma rsi_always_falls (values : list num) (period : nat) :
  1 <= period -> period + 1 <= length values -> alwaysFalls values ->
  exists r, _rsi values period = Some (Fin r) /\ (r == 0)%Q.
Proof.
  intros Hp Hlen [Hfin Hfall]. destruct (period_pos period Hp) as [HP HP1].
  assert (Hd : forall i, 1 <= i -> i < length values ->
             exists d, (Num.idx values i - Num.idx values (i - 1))%J = Fin d
                       /\ (d < 0)%Q).
  { intros i Hi1 Hi2. pose proof (Hfall i Hi1 Hi2) as H.
    destruct (idx_finite values i Hfin Hi2) as [v Hv].
    destruct (idx_finite values (i - 1) Hfin ltac:(lia)) as [w Hw].
    rewrite Hv, Hw in H |- *. simpl in *. qprop. eauto. }
  unfold _rsi.
  destruct (Nat.ltb_spec (length values) (period + 1)); [lia|].
  match goal with
  | |- context [foldl ?f (Fin 0, Fin 0) (seq 1 period)] =>
      assert (H1 : zero_gain_pair (foldl f (Fin 0, Fin 0) (seq 1 period)))
  end.
  { destruct period as [|p']; [lia|].
    change (seq 1 (S p')) with (1 :: seq 2 p'). simpl foldl.
    apply (foldl_invariant _ zero_gain_pair
             (fun i => 2 <= i /\ i < length values)).
    - destruct (Hd 1 ltac:(lia) ltac:(lia)) as (d & Hdq & Hd0).
      simpl in Hdq. rewrite Hdq.
      apply (fall_step 0 0 d Hd0); [reflexivity|lra].
    - intros a i (x & y & -> & Hx & Hy) [Hi1 Hi2]. cbv beta iota zeta.
      destruct (Hd i ltac:(lia) Hi2) as (d & -> & Hd0).
      apply (fall_step x y d Hd0 Hx). lra.
    - apply seq_in_range. lia. }
  destruct (foldl _ (Fin 0, Fin 0) (seq 1 period)) as [gains losses].
  destruct H1 as (g & l & [= -> ->] & Hg & Hl).
  match goal with
  | |- context [foldl ?f ?a (seq (period + 1) ?n)] =>
      assert (H2 : zero_gain_pair (foldl f a (seq (period + 1) n)))
  end.
  { apply (foldl_invariant _ zero_gain_pair
             (fun i => period + 1 <= i /\ i < length values)).
    - unfold Num.of_nat. simpl.
      destruct (Qeq_bool (inject_Z (Z.of_nat period)) 0) eqn:E; qprop; [lra|].
      eexists _, _. split; [done|]. split.
      + rewrite Hg. apply Qmult_0_l.
      + by apply Qlt_shift_div_l; [|lra].
    - intros a i (x & y & -> & Hx & Hy) [Hi1 Hi2]. cbv beta iota zeta.
      destruct (Hd i ltac:(lia) Hi2) as (d & -> & Hd0).
      exact (fall_smooth (inject_Z (Z.of_nat period)) x y d HP HP1 Hd0 Hx Hy).
    - apply seq_in_range. lia. }
  destruct (foldl _ _ (seq (period + 1) _)) as [avgGain avgLoss].
  destruct H2 as (ag & al & [= -> ->] & Hag & Hal).
  exact (fall_final ag al Hag Hal).
Qed.

(** X21.  A series of finite closes that falls at every step has no
    gains, so with 15 candles or more the RSI is 0 and [_rsiStrategy]
    answers BUY with strength 90. *)
Theorem rsi_falling_buy (cs : list Candle) :
  15 <= length cs ->
  alwaysFalls (map close cs) ->
  exists r s,
    _rsi (map close cs) 14 = Some (Fin r)
    /\ (r == 0)%Q
    /\ _rsiStrategy toFixed cs = Some s
    /\ action s = BUY /\ strength s = Fin 90.
Proof.
  intros Hlen Hfall.
  destruct (rsi_always_falls (map close cs) 14) as (r & Hr & Hr0);
    [lia|rewrite length_map; lia|done|].
  exists r. unfold _rsiStrategy. rewrite Hr. cbv zeta.
  assert (H25 : (Fin r <=? Fin 25)%J = true) by (simpl; qprop; lra).
  rewrite H25. eexists. done.
Qed.

End RsiFalling.

Lemma ramp_falls n : forall t p d,
  (d < 0)%Q -> alwaysFalls (map close (ramp n t p d)).
Proof.
  intros t p d Hd.
  assert (Hall : forall n t p j, j < n ->
                 exists q, Num.idx (map close (ramp n t p d)) j = Fin q
                           /\ (S j < n ->
                               Num.idx (map close (ramp n t p d)) (S j)
                               = Fin (q + d))).
  { clear. induction n as [|n IH]; intros t p j Hj; [lia|].
    destruct j as [|j].
    - exists p. split; [done|]. intros H. destruct n; [lia|done].
    - destruct (IH (t + 1)%Z (p + d)%Q j ltac:(lia)) as (q & H1 & H2).
      exists q. split; [exact H1|]. intros H. apply H2. lia. }
  assert (Hlen : length (map close (ramp n t p d)) = n).
  { rewrite length_map. clear. revert t p.
    induction n as [|n IH]; intros t p; simpl; [done|]. by rewrite IH. }
  split.
  - apply Forall_forall. intros x Hx.
    apply list_elem_of_lookup in Hx as [j Hj].
    pose proof (lookup_lt_Some _ _ _ Hj) as Hlt. rewrite Hlen in Hlt.
    destruct (Hall n t p j Hlt) as (q & Hq & _).
    unfold Num.idx in Hq. rewrite Hj in Hq. simpl in Hq. by exists q.
  - intros i Hi1 Hi2. rewrite Hlen in Hi2.
    destruct i as [|j]; [lia|].
    replace (S j - 1) with j by lia.
    destruct (Hall n t p j ltac:(lia)) as (q & Hq & Hs).
    rewrite Hq, (Hs Hi2). simpl. NumFacts.qprop. lra.
Qed.

(** X21, an instance: twenty closes that lose 1 at every bar. *)
Lemma rsi_falling_buy_witness :
  exists r s,
    _rsi (map close (ramp 20 0 100 (-1))) 14 = Some (Fin r)
    /\ (r == 0)%Q
    /\ _rsiStrategy toFixedDec (ramp 20 0 100 (-1)) = Some s
    /\ action s = BUY /\ strength s = Fin 90.
Proof.
  apply (rsi_falling_buy toFixedDec (ramp 20 0 100 (-1))).
  - simpl. lia.
  - apply ramp_falls. lra.
Defined.

Section BreakoutFlat.

Import NumFacts.

Variable toFixed : num -> nat -> string.

Lemma maxl_constant (l : list num) (p : Q) :
  l <> [] -> Forall (fun x => x = Fin p) l -> Num.maxl l = Fin p.
Proof.
  intros Hne Hl. destruct l as [|x l]; [done|].
  apply Forall_cons in Hl as [-> Hl]. unfold Num.maxl. simpl.
  induction Hl as [|y l -> Hl IH]; simpl; [done|].
  destruct (Qle_bool p p); by apply IH.
Qed.

Lemma minl_constant (l : list num) (p : Q) :
  l <> [] -> Forall (fun x => x = Fin p) l -> Num.minl l = Fin p.
Proof.
  intros Hne Hl. destruct l as [|x l]; [done|].
  apply Forall_cons in Hl as [-> Hl]. unfold Num.minl. simpl.
  induction Hl as [|y l -> Hl IH]; simpl; [done|].
  destruct (Qle_bool p p); by apply IH.
Qed.

(** X23.  A window without range: when the 20 candles before the latest
    all have their high and their low at the same price [p], the range is
    zero and the overshoot is divided by zero; a close above [p] gives BUY
    and a close below gives SELL, both at strength exactly 100 (the
    infinite ratio is capped), and a close at [p] gives HOLD at
    strength 10. *)
Theorem breakout_flat_window (cs : list Candle) (current : Candle)
    (p c : Q) :
  21 <= length cs ->
  last cs = Some current ->
  Forall (fun x => high x = Fin p /\ low x = Fin p) (prior20 cs) ->
  close current = Fin c ->
  exists s,
    _breakoutStrategy toFixed cs = Some s
    /\ ((p < c)%Q -> action s = BUY /\ strength s = Fin 100)
    /\ ((c < p)%Q -> action s = SELL /\ strength s = Fin 100)
    /\ ((c == p)%Q -> action s = HOLD /\ strength s = Fin 10).
Proof.
  intros Hlen Hlast Hflat Hc.
  pose proof (prior20_length cs Hlen) as H20.
  assert (Hne : prior20 cs <> []) by (intros E; by rewrite E in H20).
  assert (Hmax : Num.maxl (map high (prior20 cs)) = Fin p).
  { apply maxl_constant; [by destruct (prior20 cs)|].
    apply Forall_fmap. eapply Forall_impl; [exact Hflat|]. by intros x [? _]. }
  assert (Hmin : Num.minl (map low (prior20 cs)) = Fin p).
  { apply minl_constant; [by destruct (prior20 cs)|].
    apply Forall_fmap. eapply Forall_impl; [exact Hflat|]. by intros x [_ ?]. }
  assert (Hzero : Qeq_bool (p + - p) 0 = true)
    by (apply Qeq_bool_iff; ring).
  unfold _breakoutStrategy.
  destruct (Nat.ltb_spec (length cs) 21); [lia|].
  rewrite lookup_last, Hlast, breakout_window by done. cbv zeta.
  rewrite Hmax, Hmin, Hc. simpl.
  destruct (Num.Qltb p c) eqn:E1; [|destruct (Num.Qltb c p) eqn:E2];
    qprop; eexists; (split; [done|]); simpl.
  - split; [|split]; intros Hcase; try lra. split; [done|].
    rewrite Hzero. unfold Num.inf_times.
    assert (Hgt : (0 < c + - p)%Q) by lra.
    apply Qgt_alt in Hgt. by rewrite Hgt.
  - split; [|split]; intros Hcase; try lra. split; [done|].
    rewrite Hzero. unfold Num.inf_times.
    assert (Hgt : (0 < p + - c)%Q) by lra.
    apply Qgt_alt in Hgt. by rewrite Hgt.
  - split; [|split]; intros Hcase; try lra. done.
Qed.

End BreakoutFlat.

(** X23, an instance: sixty flat candles, then a close 5% higher. *)
Lemma breakout_flat_window_witness :
  exists s,
    _breakoutStrategy toFixedDec (flats 60 0 10 1 ++ [flat 60 10.5 2])
    = Some s
    /\ ((10 < 10.5)%Q -> action s = BUY /\ strength s = Fin 100)
    /\ ((10.5 < 10)%Q -> action s = SELL /\ strength s = Fin 100)
    /\ ((10.5 == 10)%Q -> action s = HOLD /\ strength s = Fin 10).
Proof.
  apply (breakout_flat_window toFixedDec
           (flats 60 0 10 1 ++ [flat 60 10.5 2]) (flat 60 10.5 2) 10 10.5).
  - simpl. lia.
  - reflexivity.
  - unfold prior20. simpl. repeat constructor.
  - reflexivity.
Defined.

(* ===================================================================== *)
(** ** The window a strategy reads                                        *)
(* ===================================================================== *)

Section Windows.

Variable toFixed : num -> nat -> string.

Lemma drop_older {A} (old w : list A) (n : nat) :
  n <= length w ->
  drop (length (old ++ w) - n) (old ++ w) = drop (length w - n) w.
Proof.
  intros Hn. rewrite length_app. rewrite drop_app_ge; [|lia]. f_equal. lia.
Qed.

Lemma slice_from_older {A} (old w : list A) (n : nat) :
  0 < n -> n <= length w ->
  slice_from (old ++ w) (- Z.of_nat n) = slice_from w (- Z.of_nat n).
Proof.
  intros H0 Hn. rewrite !slice_from_neg by done. by apply drop_older.
Qed.

Lemma windowMean_older (old w : list num) (p j : nat) :
  1 <= j -> 1 <= p -> j + p <= length w + 1 ->
  windowMean (old ++ w) p (length (old ++ w) - j)
  = windowMean w p (length w - j).
Proof.
  intros Hj Hp1 Hp. unfold windowMean. rewrite length_app.
  rewrite drop_app_ge; [|lia].
  by replace (length old + length w - j + 1 - p - length old)
    with (length w - j + 1 - p) by lia.
Qed.

(** X25.  Four strategies read only the end of the history: the result
    of [_smaCrossover] depends on the last 31 candles alone, that of
    [_breakoutStrategy] on the last 21, that of [_hftMomentum] on the last
    30 and that of [_linearRegression] on the last 50; older candles, and
    so the eviction of the oldest one, never change these results. *)
Theorem strategies_read_their_window (old w : list Candle) :
  (31 <= length w ->
   _smaCrossover toFixed (old ++ w) = _smaCrossover toFixed w)
  /\ (21 <= length w ->
      _breakoutStrategy toFixed (old ++ w) = _breakoutStrategy toFixed w)
  /\ (30 <= length w ->
      _hftMomentum toFixed (old ++ w) = _hftMomentum toFixed w)
  /\ (50 <= length w ->
      _linearRegression toFixed (old ++ w) = _linearRegression toFixed w).
Proof.
  assert (Hlen : length (old ++ w) = length old + length w)
    by apply length_app.
  split; [|split; [|split]]; intros Hw.
  - destruct (smaCrossover_points (old ++ w) ltac:(lia))
      as (E1 & E2 & E3 & E4).
    destruct (smaCrossover_points w Hw) as (F1 & F2 & F3 & F4).
    assert (Hgo : forall cs, 31 <= length cs ->
               (length (_sma (map close cs) 10) <? 2)
               || (length (_sma (map close cs) 30) <? 2) = false).
    { intros cs Hcs. rewrite !sma_length, length_map.
      destruct (Nat.ltb_spec (length cs) 10); [lia|].
      destruct (Nat.ltb_spec (length cs) 30); [lia|].
      apply orb_false_iff. split; apply Nat.ltb_ge; lia. }
    unfold _smaCrossover. rewrite (Hgo (old ++ w)), (Hgo w) by lia.
    simpl in E1, E2, E3, E4, F1, F2, F3, F4.
    rewrite E1, E2, E3, E4, F1, F2, F3, F4.
    rewrite map_app.
    assert (Hm : length (map close old ++ map close w) = length (old ++ w))
      by (rewrite <- map_app; apply length_map).
    rewrite <- Hm, <- (length_map close w).
    rewrite !windowMean_older by (rewrite ?length_map; lia).
    done.
  - unfold _breakoutStrategy.
    destruct (Nat.ltb_spec (length (old ++ w)) 21); [lia|].
    destruct (Nat.ltb_spec (length w) 21); [lia|].
    rewrite !breakout_window by lia. unfold prior20.
    rewrite (drop_older old w 21) by lia.
    rewrite lookup_app_r by lia.
    by replace (length (old ++ w) - 1 - length old) with (length w - 1)
      by lia.
  - unfold _hftMomentum.
    destruct (Nat.ltb_spec (length (old ++ w)) 30); [lia|].
    destruct (Nat.ltb_spec (length w) 30); [lia|].
    pose proof (slice_from_older old w 30 ltac:(lia) ltac:(lia)) as Hs.
    change (- Z.of_nat 30)%Z with (-30)%Z in Hs. by rewrite Hs.
  - unfold _linearRegression.
    destruct (Nat.ltb_spec (length (old ++ w)) 50); [lia|].
    destruct (Nat.ltb_spec (length w) 50); [lia|].
    pose proof (slice_from_older old w 50 ltac:(lia) ltac:(lia)) as Hs.
    change (- Z.of_nat 50)%Z with (-50)%Z in Hs. by rewrite Hs.
Qed.

End Windows.

(** X25, an instance: an old spike in front of fifty flat candles. *)
Lemma strategies_read_their_window_witness :
  _breakoutStrategy toFixedDec ([flat 0 99 5] ++ flats 50 1 10 1)
  = _breakoutStrategy toFixedDec (flats 50 1 10 1)
  /\ _linearRegression toFixedDec ([flat 0 99 5] ++ flats 50 1 10 1)
     = _linearRegression toFixedDec (flats 50 1 10 1).
Proof.
  destruct (strategies_read_their_window toFixedDec [flat 0 99 5]
              (flats 50 1 10 1)) as (_ & H2 & _ & H4).
  split; [apply H2|apply H4]; simpl; lia.
Defined.

(* ===================================================================== *)
(** ** A subscribed symbol over several ticks                             *)
(* ===================================================================== *)

Section Ticks.

Variable toFixed : num -> nat -> string.

Lemma runStrategies_table_some now sym cs strategies : forall st,
  is_Some (lastSignals st !! sym) ->
  is_Some (lastSignals
             (state_of (runStrategies toFixed now sym cs strategies st))
             !! sym).
Proof.
  induction strategies as [|strat rest IH]; intros st Hm; simpl; [done|].
  destruct (_runStrategy toFixed strat sym cs) as [s|]; [|by apply IH].
  destruct (emitSignal_cases now sym strat s st)
    as [[_ ->]|[(_ & _ & ->)|(m & _ & _ & ->)]]; simpl; [by apply IH|done|].
  apply IH. simpl. rewrite lookup_insert_eq. eauto.
Qed.

(** One tick on a subscribed symbol, with all that later ticks need. *)
Lemma processKline_run now st sym cs m k :
  candles st !! sym = Some cs ->
  lastSignals st !! sym = Some m ->
  exists st' added,
    _processKline toFixed now st sym (Some k) = Done st'
    /\ candles st' !! sym = Some (updateCandles cs (candleOf k))
    /\ is_Some (lastSignals st' !! sym)
    /\ activeStrategies st' = activeStrategies st
    /\ clients st' = clients st
    /\ sent st'
       = sent st
         ++ deliveries st
              (EvPrice (toUpperCase sym) (k_c k) (k_h k) (k_l k) (k_v k)
                 (k_t k))
         ++ added
    /\ Forall (fresh_signal toFixed sym (updateCandles cs (candleOf k)) st)
         added
    /\ (k_x k = true -> 50 <= length cs ->
        forall strat,
          strat ∈ default [] (activeStrategies st !! sym) ->
          in_sync toFixed sym (updateCandles cs (candleOf k)) st' strat).
Proof.
  intros Hcs Hm.
  pose proof (processKline_candles toFixed now st sym cs k Hcs) as Hcan.
  pose proof (runStrategies_frame toFixed now sym) as Hframe.
  revert Hcan. unfold _processKline. rewrite Hcs.
  set (ev := EvPrice _ _ _ _ _ _). set (st1 := broadcast _ ev).
  destruct (closed (candleOf k)
            && (50 <=? length (updateCandles cs (candleOf k)))) eqn:Hgo.
  - intros Hcan.
    destruct (runStrategies_sync toFixed now sym
                (updateCandles cs (candleOf k))
                (default [] (activeStrategies st1 !! sym)) st1 st)
      as (st' & added & Hd & _ & Hall & Hsent & Hf).
    { unfold st1. simpl. by rewrite Hm. }
    { intros strat. by left. }
    pose proof (runStrategies_table_some now sym
                  (updateCandles cs (candleOf k))
                  (default [] (activeStrategies st1 !! sym)) st1) as Hsome.
    destruct (Hframe (updateCandles cs (candleOf k))
                (default [] (activeStrategies st1 !! sym)) st1)
      as (Hc & _ & Ha & _).
    rewrite Hd in Hcan, Hsome, Hc, Ha. simpl in Hcan, Hsome, Hc, Ha.
    exists st', added. split; [done|]. split; [done|].
    split; [apply Hsome; unfold st1; simpl; by rewrite Hm|].
    split; [done|]. split; [done|].
    split; [rewrite Hsent; unfold st1; simpl; by rewrite app_assoc|].
    split; [done|]. intros _ _. exact Hall.
  - intros Hcan. exists st1, []. split; [done|]. split; [done|].
    split; [unfold st1; simpl; by rewrite Hm|].
    split; [done|]. split; [done|].
    split; [unfold st1; simpl; by rewrite app_nil_r|].
    split; [constructor|]. intros Hx Hlen.
    apply andb_false_iff in Hgo as [Hgo|Hgo].
    + simpl in Hgo. congruence.
    + apply Nat.leb_gt in Hgo.
      pose proof (updateCandles_length_bounds cs (candleOf k)). lia.
Qed.

(** X26.  A signal is sent again only when its action has changed: when
    a closing tick on 50 candles or more is followed by another tick,
    every signal that the second tick sends for an active strategy
    carries an action other than the one that strategy returned at the
    first tick. *)
Theorem resend_only_on_change (now1 now2 : Z) (st : Engine) (sym : string)
    (cs : list Candle) (m : gmap string Signal) (k1 k2 : Kline) :
  candles st !! sym = Some cs ->
  lastSignals st !! sym = Some m ->
  k_x k1 = true ->
  50 <= length cs ->
  exists added,
    sent (state_of
            (_processKline toFixed now2
               (state_of (_processKline toFixed now1 st sym (Some k1)))
               sym (Some k2)))
    = sent (state_of (_processKline toFixed now1 st sym (Some k1)))
      ++ deliveries (state_of (_processKline toFixed now1 st sym (Some k1)))
           (EvPrice (toUpperCase sym) (k_c k2) (k_h k2) (k_l k2) (k_v k2)
              (k_t k2))
      ++ added
    /\ forall c symbol strat s2 t s1,
         (c, EvSignal symbol strat s2 t) ∈ added ->
         strat ∈ default [] (activeStrategies st !! sym) ->
         _runStrategy toFixed strat sym (updateCandles cs (candleOf k1))
         = Some s1 ->
         action s2 <> action s1.
Proof.
  intros Hcs Hm Hx Hlen.
  destruct (processKline_run now1 st sym cs m k1 Hcs Hm)
    as (st1 & a1 & Hd1 & Hc1 & [m1 Hm1] & Ha1 & _ & _ & _ & Hsync).
  destruct (processKline_run now2 st1 sym _ m1 k2 Hc1 Hm1)
    as (st2 & a2 & Hd2 & _ & _ & _ & _ & Hsent & Hfresh & _).
  rewrite Hd1. cbn [state_of]. rewrite Hd2. cbn [state_of].
  exists a2. split; [done|].
  intros c symbol strat s2 t s1 Hin Hact Hrun.
  rewrite Forall_forall in Hfresh. specialize (Hfresh _ Hin).
  unfold fresh_signal in Hfresh. simpl in Hfresh.
  destruct Hfresh as (_ & _ & Hold).
  destruct (Hsync Hx Hlen strat Hact s1 Hrun) as (last & Hl & Hal).
  destruct Hold as [Hn|(l' & Hl' & Hne)]; congruence.
Qed.

(** X27.  A subscribed symbol stays subscribed through any feed: on an
    engine that holds a history and a last-signal table for the symbol,
    both are still there after any sequence of ticks, and the strategy
    sets are the ones the feed started with. *)
Theorem feed_stays_subscribed (now : Z) (sym : string) (ticks : list Kline) :
  forall (st : Engine) (cs : list Candle) (m : gmap string Signal),
    candles st !! sym = Some cs ->
    lastSignals st !! sym = Some m ->
    is_Some (candles (feed toFixed now st sym ticks) !! sym)
    /\ is_Some (lastSignals (feed toFixed now st sym ticks) !! sym)
    /\ activeStrategies (feed toFixed now st sym ticks)
       = activeStrategies st.
Proof.
  induction ticks as [|k rest IH]; intros st cs m Hcs Hm.
  - simpl. by eauto.
  - rewrite feed_cons.
    destruct (processKline_run now st sym cs m k Hcs Hm)
      as (st' & _ & Hd & Hc' & [m' Hm'] & Ha & _).
    rewrite Hd. simpl. rewrite <- Ha. by eapply IH.
Qed.

End Ticks.

(** X26, an instance: two closing ticks on sixty flat candles. *)
Lemma resend_only_on_change_witness :
  exists added,
    sent (state_of
            (_processKline toFixedDec 2
               (state_of
                  (_processKline toFixedDec 1
                     (engineWith "btcusdt" (flats 60 0 10 1)) "btcusdt"
                     (Some (tick 60 11 true))))
               "btcusdt" (Some (tick 61 11 true))))
    = sent (state_of
              (_processKline toFixedDec 1
                 (engineWith "btcusdt" (flats 60 0 10 1)) "btcusdt"
                 (Some (tick 60 11 true))))
      ++ deliveries
           (state_of
              (_processKline toFixedDec 1
                 (engineWith "btcusdt" (flats 60 0 10 1)) "btcusdt"
                 (Some (tick 60 11 true))))
           (EvPrice (toUpperCase "btcusdt") (k_c (tick 61 11 true))
              (k_h (tick 61 11 true)) (k_l (tick 61 11 true))
              (k_v (tick 61 11 true)) (k_t (tick 61 11 true)))
      ++ added
    /\ forall c symbol strat s2 t s1,
         (c, EvSignal symbol strat s2 t) ∈ added ->
         strat ∈ default []
                   (activeStrategies (engineWith "btcusdt" (flats 60 0 10 1))
                      !! "btcusdt") ->
         _runStrategy toFixedDec strat "btcusdt"
           (updateCandles (flats 60 0 10 1) (candleOf (tick 60 11 true)))
         = Some s1 ->
         action s2 <> action s1.
Proof.
  apply (resend_only_on_change toFixedDec 1 2
           (engineWith "btcusdt" (flats 60 0 10 1)) "btcusdt"
           (flats 60 0 10 1) ∅ (tick 60 11 true) (tick 61 11 true));
    [reflexivity|reflexivity|reflexivity|simpl; lia].
Defined.

(** X27, an instance: three ticks on an empty history. *)
Lemma feed_stays_subscribed_witness :
  is_Some (candles (feed toFixedDec 1 (engineWith "btcusdt" []) "btcusdt"
                      [tick 1 10 false; tick 1 11 true; tick 2 11 true])
             !! "btcusdt")
  /\ is_Some (lastSignals
                (feed toFixedDec 1 (engineWith "btcusdt" []) "btcusdt"
                   [tick 1 10 false; tick 1 11 true; tick 2 11 true])
                !! "btcusdt")
  /\ activeStrategies
       (feed toFixedDec 1 (engineWith "btcusdt" []) "btcusdt"
          [tick 1 10 false; tick 1 11 true; tick 2 11 true])
     = activeStrategies (engineWith "btcusdt" []).
Proof.
  apply (feed_stays_subscribed toFixedDec 1 "btcusdt"
           [tick 1 10 false; tick 1 11 true; tick 2 11 true]
           (engineWith "btcusdt" []) [] ∅); reflexivity.
Defined.
